(** * Valetudo map widgets: coordinate transforms, overlay dispatch, decoders

    Shallow embedding of the two map widgets of the Valetudo web client:

    - [client/src/index.js] (class [VacuumMap], imported there as
      [./map/vacuum-map]): the canvas widget with pan / pinch / wheel
      gestures, the location overlays and the conversion of overlays to robot
      millimetres;
    - [client/js/Map.js] (constructor [Map]): the raw-map renderer with its own
      viewport transform and the binary image / path decoders.

    Modelling conventions.

    - A JavaScript number is an exact rational ([Q]); [Math.floor] is [Qfloor].
      Rounding of IEEE-754 doubles, [NaN] and the infinities are outside this
      reading, so the statements proved from it are those that do not rest on
      an exact cancellation of products and quotients: what is stored, what
      is compared, what is called and how often. Numbers are compared with
      [Qeq] ([==]). Where the difference decides a statement (the round trip
      of the viewport transforms), [RawMapBinary64] gives the same functions
      in the double arithmetic the program runs in.
    - An array is a [list]; [a[i]] is [a !! i], [a[i] = v] is [<[i:=v]> a] and
      [a.splice(i, 1)] is [delete i a].
    - A [for] / [while] loop is a [Fixpoint] on a fuel argument that returns
      [None] when the fuel runs out; each loop comes with the fuel that is
      enough for it.
    - Drawing on the canvas has no effect on the state the widget reads back,
      so [redraw()] is not part of the state. *)

From Stdlib Require Import QArith Qround Qabs Qminmax Lqa ZArith NArith Lia.
From Stdlib Require Import Strings.Byte.
From Stdlib Require Import Floats.PrimFloat.
From stdpp Require Import base list strings.

Local Open Scope Q_scope.

(** ** Numbers and points *)

Record Point : Type := mkPoint { px : Q; py : Q }.

(** [p ≈ q] up to the representation of the rationals. *)
Definition Point_eq (p q : Point) : Prop := px p == px q /\ py p == py q.

(** Real-world coordinates: the results of [Math.floor] are integers. *)
Record RealPoint : Type := mkReal { rx : Z; ry : Z }.

(** [convertToRealCoords]: map space (1024 x 1024) to millimetres. *)
Definition convertToRealCoords (coordinatesInMapSpace : Point) : RealPoint :=
  {| rx := Qfloor (px coordinatesInMapSpace * 50);
     ry := Qfloor (py coordinatesInMapSpace * 50) |}.

(** [relativeCoordinates({x, y}, referenceElement)], where [rect] is the top
    left corner that [getBoundingClientRect()] reports. *)
Definition relativeCoordinates (p rect : Point) : Point :=
  {| px := px p - px rect; py := py p - py rect |}.

(** ** The tracked canvas transform *)

(** Modelled from the spec: [tracked-canvas.js] ([trackTransforms]) is not part
    of the sources. It mirrors every [scale] and [translate] of the context
    into a matrix. The widget only ever scales and translates, so the matrix
    keeps the shape [x' = a x + e], [y' = d y + f]. *)
Record Transform : Type := mkTransform { m_a : Q; m_d : Q; m_e : Q; m_f : Q }.

Definition identityTransform : Transform := mkTransform 1 1 0 0.

(** [ctx.scale(sx, sy)]: multiply by a scaling on the right. *)
Definition ctx_scale (sx sy : Q) (t : Transform) : Transform :=
  {| m_a := m_a t * sx; m_d := m_d t * sy; m_e := m_e t; m_f := m_f t |}.

(** [ctx.translate(tx, ty)]: multiply by a translation on the right. *)
Definition ctx_translate (tx ty : Q) (t : Transform) : Transform :=
  {| m_a := m_a t; m_d := m_d t;
     m_e := m_a t * tx + m_e t; m_f := m_d t * ty + m_f t |}.

(** [matrix.inverse()]. The inverse of a matrix with a zero scale has no
    meaning in the model (the rationals give [/ 0 = 0]). *)
Definition inverse (t : Transform) : Transform :=
  {| m_a := / m_a t; m_d := / m_d t;
     m_e := - (m_e t / m_a t); m_f := - (m_f t / m_d t) |}.

(** [point.matrixTransform(matrix)]. *)
Definition matrixTransform (p : Point) (t : Transform) : Point :=
  {| px := m_a t * px p + m_e t; py := m_d t * py p + m_f t |}.

(** Modelled from the spec: [ctx.transformedPoint(x, y)] of
    [tracked-canvas.js], which applies the inverse matrix to a point of the
    screen. *)
Definition transformedPoint (t : Transform) (x y : Q) : Point :=
  matrixTransform (mkPoint x y) (inverse t).


(** ** Locations *)

(** The two overlay classes of [locations.js]; both carry the [active] flag. *)
Inductive Location : Type :=
| GotoPoint (x y : Q) (active : bool)
| Zone (x1 y1 x2 y2 : Q) (active : bool).

(** [location instanceof GotoPoint] and [location instanceof Zone]. *)
Definition instanceof_GotoPoint (l : Location) : bool :=
  match l with GotoPoint _ _ _ => true | Zone _ _ _ _ _ => false end.

Definition instanceof_Zone (l : Location) : bool :=
  match l with GotoPoint _ _ _ => false | Zone _ _ _ _ _ => true end.

(** [location.active = false]. *)
Definition deactivate (l : Location) : Location :=
  match l with
  | GotoPoint x y _ => GotoPoint x y false
  | Zone x1 y1 x2 y2 _ => Zone x1 y1 x2 y2 false
  end.

(** What a [tap] or [translate] handler of a location returns. An absent
    [updatedLocation] is [None]. *)
Record HandlerResult : Type := mkResult {
  updatedLocation : option Location;
  stopPropagation : bool
}.

(** The part of [locations.js] the widget relies on. The file is not among the
    sources, so the widget is verified for every implementation of it. *)
Class LocationsJs : Type := {
  (** [typeof location.translate === "function"] *)
  has_translate : Location -> bool;
  (** [location.tap(point, transform)] *)
  loc_tap : Location -> Point -> Transform -> HandlerResult;
  (** [location.translate(start, last, current, transform)] *)
  loc_translate : Location -> Point -> Point -> Point -> Transform -> HandlerResult;
  (** the [active] flag the constructors set *)
  GotoPoint_active : bool;
  Zone_active : bool
}.

(** JSON values, as [JSON.parse] returns them. *)
#[local] Unset Elimination Schemes.
Inductive JSValue : Type :=
| JUndefined
| JNull
| JBool (b : bool)
| JNumber (q : Q)
| JString (s : string)
| JArray (items : list JSValue)
| JObject (fields : list (string * JSValue)).
#[local] Set Elimination Schemes.

(** The JavaScript built-ins the widget calls. [JSON_parse] returns [None]
    where [JSON.parse] throws a [SyntaxError]. *)
Class Builtins : Type := {
  JSON_parse : string -> option JSValue;
  Math_pow : Q -> Q -> Q
}.

(** [value.name]: [None] is the [TypeError] of a property access on [null] or
    [undefined]; a missing property reads as [undefined]. *)
Definition getProperty (value : JSValue) (name : string) : option JSValue :=
  match value with
  | JUndefined | JNull => None
  | JObject fields =>
    Some (default JUndefined (snd <$> List.find (fun kv => String.eqb (fst kv) name) fields))
  | _ => Some JUndefined
  end.

(** ** The map widget [VacuumMap] *)

Module VacuumMap.

(** The fields of the widget and the variables its handlers close over. *)
Record State : Type := mkState {
  (** the tracked transform of the canvas context *)
  ctx : Transform;
  (** [this.locations] *)
  locations : list Location;
  (** top left corner of the canvas on the screen *)
  rect : Point;
  lastX : Q;
  lastY : Q;
  (** [dragStart]; [None] is [undefined] or [null] *)
  dragStart : option Point;
  lastScaleFactor : Q;
  (** the arguments of the calls of [this.pathDrawer.scale], oldest first *)
  pathDrawer_scale : list Q;
  (** the frame last given to [this.mapDrawer.draw] *)
  mapDrawer_image : JSValue;
  (** the path, robot and charger last given to [this.pathDrawer.setPath] *)
  pathDrawer_path : JSValue * JSValue * JSValue;
  (** how many times the reconnect timer has been armed *)
  heartbeats : nat
}.

Definition set_ctx (t : Transform) (w : State) : State :=
  mkState t (locations w) (rect w) (lastX w) (lastY w) (dragStart w)
    (lastScaleFactor w) (pathDrawer_scale w) (mapDrawer_image w)
    (pathDrawer_path w) (heartbeats w).

Definition set_locations (ls : list Location) (w : State) : State :=
  mkState (ctx w) ls (rect w) (lastX w) (lastY w) (dragStart w)
    (lastScaleFactor w) (pathDrawer_scale w) (mapDrawer_image w)
    (pathDrawer_path w) (heartbeats w).

Definition set_last (p : Point) (w : State) : State :=
  mkState (ctx w) (locations w) (rect w) (px p) (py p) (dragStart w)
    (lastScaleFactor w) (pathDrawer_scale w) (mapDrawer_image w)
    (pathDrawer_path w) (heartbeats w).


Definition set_lastScaleFactor (s : Q) (w : State) : State :=
  mkState (ctx w) (locations w) (rect w) (lastX w) (lastY w) (dragStart w)
    s (pathDrawer_scale w) (mapDrawer_image w)
    (pathDrawer_path w) (heartbeats w).


(** Modelled from the spec: [map-drawer.js] and [path-drawer.js] are not part
    of the sources; [mapDrawer.draw(image)] and [pathDrawer.setPath(...)]
    replace the frame the drawer holds and do not throw. *)
Definition set_frames (image : JSValue) (path : JSValue * JSValue * JSValue)
    (w : State) : State :=
  mkState (ctx w) (locations w) (rect w) (lastX w) (lastY w) (dragStart w)
    (lastScaleFactor w) (pathDrawer_scale w) image path (heartbeats w).

(** [clearTimeout(this.heartbeatTimeout); this.heartbeatTimeout = setTimeout(...)]. *)
Definition resetHeartbeat (w : State) : State :=
  mkState (ctx w) (locations w) (rect w) (lastX w) (lastY w) (dragStart w)
    (lastScaleFactor w) (pathDrawer_scale w) (mapDrawer_image w)
    (pathDrawer_path w) (S (heartbeats w)).

(** How a handler ends: it returns, or it throws after the changes made so
    far. An exception thrown by an event handler leaves the widget in the
    state reached. *)
Inductive Outcome : Type :=
| Returned (w : State)
| Threw (w : State).

Definition state_of (o : Outcome) : State :=
  match o with Returned w => w | Threw w => w end.

(** The events, with the fields the handlers read. *)
Record TapEvent : Type := { tappedCoordinates : Point }.
Record PanMoveEvent : Type := { currentCoordinates : Point }.
Record PinchEvent : Type := { center : Point; scale : Q }.

Section Handlers.
Context {L : LocationsJs} {B : Builtins}.

(** The loop shared by [tap] and [moveTranslate]:
<<
    for (let i = 0; i < this.locations.length; ++i) {
      const location = this.locations[i];
      if (typeof location.translate === "function") {
        const result = <handler call>;
        if (result.updatedLocation) { this.locations[i] = result.updatedLocation; }
        else { this.locations.splice(i, 1); i--; }
        if (result.stopPropagation === true) { redraw(); return; }
      }
    }
>>
    [handler] is the handler call of the gesture with its other arguments
    fixed. The state is the array, the index and the log of the locations
    whose handler has been called. [i--] followed by the [++i] of the loop
    header leaves the index where it was. The boolean tells whether the loop
    was left by the [return]. *)
Fixpoint dispatchLoop (handler : Location -> HandlerResult) (fuel : nat)
    (locations : list Location) (i : nat) (calls : list Location)
    : option (list Location * bool * list Location) :=
  match fuel with
  | O => None
  | S fuel' =>
    match locations !! i with
    | None => Some (locations, false, calls)
    | Some location =>
      if has_translate location then
        let result := handler location in
        let calls' := calls ++ [location] in
        match updatedLocation result with
        | Some updated =>
          let locations' := <[i := updated]> locations in
          if stopPropagation result then Some (locations', true, calls')
          else dispatchLoop handler fuel' locations' (S i) calls'
        | None =>
          let locations' := delete i locations in
          if stopPropagation result then Some (locations', true, calls')
          else dispatchLoop handler fuel' locations' i calls'
        end
      else dispatchLoop handler fuel' locations (S i) calls
    end
  end.

Definition dispatch (handler : Location -> HandlerResult)
    (locations : list Location)
    : option (list Location * bool * list Location) :=
  dispatchLoop handler (S (length locations)) locations 0 [].

(** [new GotoPoint(x, y)] and [new Zone(x1, y1, x2, y2)]. *)
Definition new_GotoPoint (x y : Q) : Location := GotoPoint x y GotoPoint_active.
Definition new_Zone (x1 y1 x2 y2 : Q) : Location := Zone x1 y1 x2 y2 Zone_active.

(** The handler call of [tap], for the location at hand. *)
Definition tapHandler (w : State) (evt : TapEvent) (l : Location) : HandlerResult :=
  loc_tap l (relativeCoordinates (tappedCoordinates evt) (rect w)) (ctx w).

(** The point of the map that was tapped. *)
Definition tappedPoint (w : State) (evt : TapEvent) : Point :=
  let p := relativeCoordinates (tappedCoordinates evt) (rect w) in
  transformedPoint (ctx w) (px p) (py p).

(** What [tap] does to the list once no location has consumed the tap. *)
Definition placeGotoPoint (p : Point) (locations : list Location) : list Location :=
  if (length locations =? 0)%nat then locations ++ [new_GotoPoint (px p) (py p)]
  else if (length locations =? 1)%nat
          && from_option instanceof_GotoPoint false (locations !! 0%nat)
       then <[0%nat := new_GotoPoint (px p) (py p)]> locations
       else locations.

(** [tap(evt)]. [None] only if the loop ran out of fuel. *)
Definition tap (w : State) (evt : TapEvent) : option State :=
  match dispatch (tapHandler w evt) (locations w) with
  | None => None
  | Some (locs, true, _) => Some (set_locations locs w)
  | Some (locs, false, _) =>
    Some (set_locations (placeGotoPoint (tappedPoint w evt) locs) w)
  end.


(** The handler call of [moveTranslate]. *)
Definition translateHandler (w : State) (start : Point) (evt : PanMoveEvent)
    (l : Location) : HandlerResult :=
  loc_translate l
    (matrixTransform start (inverse (ctx w)))
    (mkPoint (lastX w) (lastY w))
    (relativeCoordinates (currentCoordinates evt) (rect w))
    (ctx w).

(** [moveTranslate(evt)]. The [filter(location => location !== null)] after
    the loop keeps every element, a list of locations holds no [null]. *)
Definition moveTranslate (w : State) (evt : PanMoveEvent) : option State :=
  let p := relativeCoordinates (currentCoordinates evt) (rect w) in
  let w1 := set_last p w in
  match dragStart w with
  | None => Some w1
  | Some start =>
    match dispatch (translateHandler w start evt) (locations w) with
    | None => None
    | Some (locs, true, _) => Some (set_locations locs w1)
    | Some (locs, false, _) =>
      let pt := transformedPoint (ctx w) (px p) (py p) in
      Some (set_ctx (ctx_translate (px pt - px start) (py pt - py start) (ctx w))
              (set_locations locs w1))
    end
  end.



(** [ctx.translate(pt.x, pt.y); ctx.scale(factor, factor);
    ctx.translate(-pt.x, -pt.y)]. *)
Definition scaleAbout (pt : Point) (factor : Q) (t : Transform) : Transform :=
  ctx_translate (- px pt) (- py pt)
    (ctx_scale factor factor (ctx_translate (px pt) (py pt) t)).

(** [scalePinch(evt)]. Reading [dragStart.x] throws when no pinch or pan has
    started. *)
Definition scalePinch (w : State) (evt : PinchEvent) : Outcome :=
  let factor := scale evt / lastScaleFactor w in
  let w1 := set_lastScaleFactor (scale evt) w in
  let pt := transformedPoint (ctx w1) (px (center evt)) (py (center evt)) in
  let w2 := set_ctx (scaleAbout pt factor (ctx w1)) w1 in
  let c := relativeCoordinates (center evt) (rect w2) in
  let w3 := set_last c w2 in
  let p := transformedPoint (ctx w3) (lastX w3) (lastY w3) in
  match dragStart w3 with
  | None => Threw w3
  | Some start =>
    Returned (set_ctx (ctx_translate (px p - px start) (py p - py start) (ctx w3)) w3)
  end.





(** A whole pinch gesture: pinch-start, the pinch-moves, pinch-end. *)
Definition pinchMoves (w : State) (moves : list PinchEvent) : State :=
  fold_left (fun w evt => state_of (scalePinch w evt)) moves w.


(** [prepareGotoCoordinatesForApi(gotoPoint)]. *)
Definition prepareGotoCoordinatesForApi (x y : Q) : RealPoint :=
  let point := convertToRealCoords (mkPoint x y) in
  {| rx := rx point; ry := ry point |}.

(** [prepareZoneCoordinatesForApi(zone)]. *)
Definition prepareZoneCoordinatesForApi (x1 y1 x2 y2 : Q) : Z * Z * Z * Z :=
  let p1Real := convertToRealCoords (mkPoint x1 y1) in
  let p2Real := convertToRealCoords (mkPoint x2 y2) in
  (Z.min (rx p1Real) (rx p2Real),
   Z.min (ry p1Real) (ry p2Real),
   Z.max (rx p1Real) (rx p2Real),
   Z.max (ry p1Real) (ry p2Real)).

Record ApiLocations : Type := {
  zones : list (Z * Z * Z * Z);
  gotoPoints : list RealPoint
}.

(** [getLocations()]. Each [filter(instanceof) . map(prepare)] pair is one
    pass that keeps the locations of the class and converts them. *)
Definition getLocations (w : State) : ApiLocations :=
  {| zones :=
       omap (fun l => match l with
                      | Zone x1 y1 x2 y2 _ =>
                        Some (prepareZoneCoordinatesForApi x1 y1 x2 y2)
                      | GotoPoint _ _ _ => None
                      end) (locations w);
     gotoPoints :=
       omap (fun l => match l with
                      | GotoPoint x y _ => Some (prepareGotoCoordinatesForApi x y)
                      | Zone _ _ _ _ _ => None
                      end) (locations w) |}.

(** [addZone()]. *)
Definition addZone (w : State) : State :=
  let newZone := new_Zone 480 480 550 550 in
  set_locations (map deactivate (locations w) ++ [newZone]) w.

(** [updateMap(mapData)]. [None]: reading [mapData.image] threw, before any
    change. [updateMap] passes no charger to [setPath]. *)
Definition updateMap (w : State) (mapData : JSValue) : option State :=
  match getProperty mapData "image", getProperty mapData "path",
        getProperty mapData "robot" with
  | Some image, Some path, Some robot =>
    Some (set_frames image (path, robot, JUndefined) w)
  | _, _, _ => None
  end.

(** [this.ws.onmessage], on a message with payload [data]:
<<
    clearTimeout(this.heartbeatTimeout);
    this.heartbeatTimeout = setTimeout(..., 5000);
    if (evt.data !== '') {
      try { this.updateMap(JSON.parse(evt.data)); } catch (e) { }
    }
>> *)
Definition onmessage (w : State) (data : string) : State :=
  let w1 := resetHeartbeat w in
  if String.eqb data EmptyString then w1
  else
    match JSON_parse data with
    | None => w1
    | Some mapData =>
      match updateMap w1 mapData with
      | None => w1
      | Some w2 => w2
      end
    end.

(** The frames on display. *)
Definition frames (w : State) : JSValue * (JSValue * JSValue * JSValue) :=
  (mapDrawer_image w, pathDrawer_path w).

(** The messages of a connection, handled in the order of arrival. *)
Definition receive (w : State) (messages : list string) : State :=
  fold_left onmessage messages w.

(** The payload is dropped: it is empty or does not parse. *)
Definition dropped (data : string) : Prop :=
  data = EmptyString \/ JSON_parse data = None.

(** *** The propagation rule in the words of the specification *)

(** What becomes of one location that is offered the gesture. *)
Definition settle (handler : Location -> HandlerResult) (l : Location)
    : list Location :=
  if has_translate l then
    match updatedLocation (handler l) with
    | Some updated => [updated]
    | None => []
    end
  else [l].

(** The location consumes the gesture. *)
Definition consumes (handler : Location -> HandlerResult) (l : Location) : bool :=
  has_translate l && stopPropagation (handler l).

(** Position of the first location, in list order, that consumes it. *)
Fixpoint first_consumer (handler : Location -> HandlerResult)
    (locations : list Location) : option nat :=
  match locations with
  | [] => None
  | l :: rest =>
    if consumes handler l then Some O else S <$> first_consumer handler rest
  end.

(** Number of locations that are offered the gesture. *)
Definition offered (handler : Location -> HandlerResult)
    (locations : list Location) : nat :=
  match first_consumer handler locations with
  | Some k => S k
  | None => length locations
  end.

Definition was_consumed (handler : Location -> HandlerResult)
    (locations : list Location) : bool :=
  match first_consumer handler locations with Some _ => true | None => false end.

(** The list after the gesture: the locations offered the gesture are
    settled, the ones behind them are left as they are. *)
Definition dispatched (handler : Location -> HandlerResult)
    (locations : list Location) : list Location :=
  flat_map (settle handler) (take (offered handler locations) locations)
    ++ drop (offered handler locations) locations.

(** The locations whose handler is called, in the order of the calls. *)
Definition called (handler : Location -> HandlerResult)
    (locations : list Location) : list Location :=
  List.filter has_translate (take (offered handler locations) locations).

(** One pass over the list, by recursion on it. *)
Fixpoint walk (handler : Location -> HandlerResult) (locations : list Location)
    : list Location * bool * list Location :=
  match locations with
  | [] => ([], false, [])
  | l :: rest =>
    if has_translate l then
      if stopPropagation (handler l) then (settle handler l ++ rest, true, [l])
      else let '(rest', stopped, calls) := walk handler rest in
           (settle handler l ++ rest', stopped, l :: calls)
    else let '(rest', stopped, calls) := walk handler rest in
         (l :: rest', stopped, calls)
  end.

(** Number of goto points in a list of locations. *)
Definition countGotoPoints (locations : list Location) : nat :=
  length (List.filter instanceof_GotoPoint locations).



(** The scale a pinch-move reports is not zero. *)
Definition nonzero_scale (evt : PinchEvent) : Prop := ~ scale evt == 0.

(** The tap handler of a zone never hands back a goto point. *)
Definition zones_stay_zones : Prop :=
  forall l p t u,
    instanceof_GotoPoint l = false ->
    updatedLocation (loc_tap l p t) = Some u ->
    instanceof_GotoPoint u = false.

(** The tap handler of a goto point, if it has one, hands back a goto point. *)
Definition goto_points_stay : Prop :=
  forall l p t,
    instanceof_GotoPoint l = true ->
    has_translate l = true ->
    exists u, updatedLocation (loc_tap l p t) = Some u
              /\ instanceof_GotoPoint u = true.

(** The states the widget reaches from an empty list of locations by taps and
    [addZone], whatever happens to the view in between. *)
Inductive reachable : State -> Prop :=
| reach_init w : locations w = [] -> reachable w
| reach_tap w evt w' : reachable w -> tap w evt = Some w' -> reachable w'
| reach_addZone w : reachable w -> reachable (addZone w)
| reach_view w w' : reachable w -> locations w' = locations w -> reachable w'.

End Handlers.

End VacuumMap.

(** ** The raw-map renderer [Map] of [client/js/Map.js] *)

Module RawMap.

(** Points are two-element arrays. *)
Definition Pair : Type := (Q * Q)%type.

Definition Pair_eq (p q : Pair) : Prop := fst p == fst q /\ snd p == snd q.

Record State : Type := mkState {
  scale : Q;
  viewportPosition : Pair;
  selectedPoint : option Pair
}.

(** [Map.prototype.transformViewportToMap]. *)
Definition transformViewportToMap (m : State) (point : Pair) : Pair :=
  (fst (viewportPosition m) + fst point / scale m,
   snd (viewportPosition m) + snd point / scale m).

(** [Map.prototype.transformMapToViewport]. *)
Definition transformMapToViewport (m : State) (point : Pair) : Pair :=
  ((fst point - fst (viewportPosition m)) * scale m,
   (snd point - snd (viewportPosition m)) * scale m).

Record MouseWheelEvent : Type := {
  clientX : Q;
  clientY : Q;
  wheelDelta : Q
}.

Definition Qlt_bool (x y : Q) : bool := negb (Qle_bool y x).

(** The ["mousewheel"] listener; [rect] is the top left corner of the
    viewport on the screen. *)
Definition mousewheel (m : State) (rect : Pair) (e : MouseWheelEvent) : State :=
  let x := clientX e - fst rect in
  let y := clientY e - snd rect in
  let xpos := x / scale m in
  let ypos := y / scale m in
  let scale1 :=
    if Qlt_bool 0 (wheelDelta e) then scale m + (2 # 10) * scale m
    else scale m - (2 # 10) * scale m in
  let scale2 := if Qlt_bool scale1 1 then 1 else scale1 in
  {| scale := scale2;
     viewportPosition :=
       (fst (viewportPosition m) - (x / scale2 - xpos),
        snd (viewportPosition m) - (y / scale2 - ypos));
     selectedPoint := selectedPoint m |}.

(** *** The binary payloads *)

(** How a decoding loop ends. *)
Inductive Run (A : Type) : Type :=
| Finished (a : A)
| RangeError
| OutOfFuel.
Arguments Finished {A} a.
Arguments RangeError {A}.
Arguments OutOfFuel {A}.

(** [new DataView(buffer)] over the bytes of the buffer. *)
Abbreviation DataView := (list byte).

(** [data.getUint8(byteOffset)]; [None] is the [RangeError]. *)
Definition getUint8 (data : DataView) (byteOffset : nat) : option N :=
  Byte.to_N <$> data !! byteOffset.

(** [data.getUint32(byteOffset)], big-endian; [None] is the [RangeError]. *)
Definition getUint32 (data : DataView) (byteOffset : nat) : option N :=
  match data !! byteOffset, data !! (byteOffset + 1)%nat,
        data !! (byteOffset + 2)%nat, data !! (byteOffset + 3)%nat with
  | Some b0, Some b1, Some b2, Some b3 =>
    Some (((Byte.to_N b0 * 256 + Byte.to_N b1) * 256 + Byte.to_N b2) * 256
          + Byte.to_N b3)%N
  | _, _, _, _ => None
  end.

(** One record of the image payload: [pos], [r], [g], [b]. *)
Definition ImageRecord : Type := (N * N * N * N)%type.

(** The loop of [updateMapData], as the list of the records it reads:
<<
    let bytePos = 0;
    while (bytePos < data.byteLength) {
      const pos = data.getUint32(bytePos++);
      bytePos += 3;
      const r = data.getUint8(bytePos++);
      const g = data.getUint8(bytePos++);
      const b = data.getUint8(bytePos++);
      ...
    }
>>
    [getUint32(bytePos++)] reads at [bytePos] and then adds one, so [r] is read
    at [bytePos + 4]. *)
Fixpoint readImageLoop (fuel : nat) (data : DataView) (bytePos : nat)
    (records : list ImageRecord) : Run (list ImageRecord) :=
  match fuel with
  | O => OutOfFuel
  | S fuel' =>
    if (bytePos <? length data)%nat then
      match getUint32 data bytePos, getUint8 data (bytePos + 4)%nat,
            getUint8 data (bytePos + 5)%nat, getUint8 data (bytePos + 6)%nat with
      | Some pos, Some r, Some g, Some b =>
        readImageLoop fuel' data (bytePos + 7)%nat (records ++ [(pos, r, g, b)])
      | _, _, _, _ => RangeError
      end
    else Finished records
  end.

Definition readImage (data : DataView) : Run (list ImageRecord) :=
  readImageLoop (S (length data)) data 0 [].

(** The four writes to [imageData.data] for one record. *)
Definition pixelWrites (record : ImageRecord) : list (N * N) :=
  let '(pos, r, _, _) := record in
  if (r =? 0)%N then
    [(pos, 102); (pos + 1, 153); (pos + 2, 255); (pos + 3, 255)]%N
  else
    [(pos, 0); (pos + 1, 118); (pos + 2, 255); (pos + 3, 255)]%N.

(** The loop of [drawPath], as the list of the pairs it reads:
<<
    while (bytePos < data.byteLength) {
      const x = data.getUint32(bytePos++);
      bytePos += 3;
      const y = data.getUint32(bytePos++);
      bytePos += 3;
      ...
    }
>> *)
Fixpoint readPathLoop (fuel : nat) (data : DataView) (bytePos : nat)
    (pairs : list (N * N)) : Run (list (N * N)) :=
  match fuel with
  | O => OutOfFuel
  | S fuel' =>
    if (bytePos <? length data)%nat then
      match getUint32 data bytePos, getUint32 data (bytePos + 4)%nat with
      | Some x, Some y =>
        readPathLoop fuel' data (bytePos + 8)%nat (pairs ++ [(x, y)])
      | _, _ => RangeError
      end
    else Finished pairs
  end.

Definition readPath (data : DataView) : Run (list (N * N)) :=
  readPathLoop (S (length data)) data 0 [].

(** The vertices [drawPath] hands to [moveTo] / [lineTo]. *)
Definition pathVertex (m : State) (pair : N * N) : Pair :=
  transformMapToViewport m
    (inject_Z (Z.of_N (fst pair)) / 4, inject_Z (Z.of_N (snd pair)) / 4).

(** *** Layouts *)

Definition byte_of_N (n : N) : byte :=
  default "000"%byte (Byte.of_N (n mod 256)).

(** Four bytes, most significant first. *)
Definition be32 (n : N) : list byte :=
  [byte_of_N (n / 16777216); byte_of_N (n / 65536); byte_of_N (n / 256);
   byte_of_N n].

Definition uint8 (n : N) : Prop := (n < 256)%N.
Definition uint32 (n : N) : Prop := (n < 4294967296)%N.

Definition image_record_ok (record : ImageRecord) : Prop :=
  let '(pos, r, g, b) := record in uint32 pos /\ uint8 r /\ uint8 g /\ uint8 b.

Definition path_pair_ok (pair : N * N) : Prop :=
  uint32 (fst pair) /\ uint32 (snd pair).

(** The layout the loops read: seven bytes per image record, eight per pair of
    the path. *)
Definition image_layout (records : list ImageRecord) : list byte :=
  flat_map (fun '(pos, r, g, b) =>
              be32 pos ++ [byte_of_N r; byte_of_N g; byte_of_N b]) records.

Definition path_layout (pairs : list (N * N)) : list byte :=
  flat_map (fun '(x, y) => be32 x ++ be32 y) pairs.

Definition padding : list byte := ["000"; "000"; "000"]%byte.

(** The layout in the words of the specification: three bytes of padding
    after every four-byte field. *)
Definition padded_image_layout (records : list ImageRecord) : list byte :=
  flat_map (fun '(pos, r, g, b) =>
              be32 pos ++ padding ++ [byte_of_N r; byte_of_N g; byte_of_N b])
           records.

Definition padded_path_layout (pairs : list (N * N)) : list byte :=
  flat_map (fun '(x, y) => be32 x ++ padding ++ be32 y ++ padding) pairs.

End RawMap.

(** ** The canvas of the map widget: set-up and redrawing *)

Module Canvas.











(** The numbers [_initCanvas] reads from [data.image]: [position.left],
    [position.top], [dimensions.width] and [dimensions.height]. *)
Record MapImage : Type := {
  left : Q;
  top : Q;
  width : Q;
  height : Q
}.





(** The point the [goto] button sends: [map.getLocations().gotoPoints[0]];
    [None] is [undefined]. *)
Definition gotoTarget (w : VacuumMap.State) : option RealPoint :=
  VacuumMap.gotoPoints (VacuumMap.getLocations w) !! 0%nat.

End Canvas.

(** ** The pointer handling of the raw-map renderer *)

Module RawMapPointer.
Import RawMap.

(** The renderer with the size of its viewport canvas and the variables
    [start] and [moved] its pointer listeners close over. *)
Record Widget : Type := mkWidget {
  map : State;
  viewportWidth : Q;
  viewportHeight : Q;
  (** [start]; [None] is [undefined] *)
  start : option Pair;
  moved : bool
}.

(** The constructor, for a viewport container of the given size. *)
Definition construct (width height : Q) : Widget :=
  {| map := {| scale := 1;
               viewportPosition := (512 - width / 2, 512 - height / 2);
               selectedPoint := None |};
     viewportWidth := width;
     viewportHeight := height;
     start := None;
     moved := false |}.

Record PointerEvent : Type := { clientX : Q; clientY : Q }.

(** Position of the event inside the viewport, [rect] being its top left
    corner on the screen. *)
Definition localPosition (rect : Pair) (e : PointerEvent) : Pair :=
  (clientX e - fst rect, clientY e - snd rect).

(** The ["pointerdown"] listener. *)
Definition pointerdown (w : Widget) (rect : Pair) (e : PointerEvent) : Widget :=
  {| map := map w;
     viewportWidth := viewportWidth w;
     viewportHeight := viewportHeight w;
     start := Some (localPosition rect e);
     moved := false |}.

(** The two [if]s that keep one coordinate of the viewport position in range:
    first the upper bound [1024 - 10], then the lower bound
    [-1 * size / scale + 10]. *)
Definition clampPosition (size scale position : Q) : Q :=
  let p1 := if Qlt_bool (1024 - 10) position then 1024 - 10 else position in
  if Qlt_bool p1 (-1 * size / scale + 10) then -1 * size / scale + 10 else p1.

(** The ["pointermove"] listener. *)
Definition pointermove (w : Widget) (rect : Pair) (e : PointerEvent) : Widget :=
  match start w with
  | None => w
  | Some s =>
    let '(x, y) := localPosition rect e in
    let xdiff := fst s - x in
    let ydiff := snd s - y in
    let m := map w in
    let px0 := fst (viewportPosition m) + xdiff / scale m in
    let py0 := snd (viewportPosition m) + ydiff / scale m in
    {| map := {| scale := scale m;
                 viewportPosition :=
                   (clampPosition (viewportWidth w) (scale m) px0,
                    clampPosition (viewportHeight w) (scale m) py0);
                 selectedPoint := selectedPoint m |};
       viewportWidth := viewportWidth w;
       viewportHeight := viewportHeight w;
       start := Some (x, y);
       moved := true |}
  end.

(** The ["pointerup"] listener. *)
Definition pointerup (w : Widget) : Widget :=
  let m := map w in
  {| map := {| scale := scale m;
               viewportPosition := viewportPosition m;
               selectedPoint :=
                 match start w with
                 | Some s =>
                   if moved w then selectedPoint m
                   else Some (transformViewportToMap m s)
                 | None => selectedPoint m
                 end |};
     viewportWidth := viewportWidth w;
     viewportHeight := viewportHeight w;
     start := None;
     moved := moved w |}.

(** A drag: pointer down, the pointer moves, pointer up. *)
Definition drag (w : Widget) (rect : Pair) (down : PointerEvent)
    (moves : list PointerEvent) : Widget :=
  pointerup (fold_left (fun w e => pointermove w rect e) moves
               (pointerdown w rect down)).

(** The arguments of [ctx.drawImage(this.drawCanvas, x, y, width, height)] in
    [updateViewport]. *)
Definition drawImageArgs (m : State) : Q * Q * Q * Q :=
  (fst (viewportPosition m) * scale m * -1,
   snd (viewportPosition m) * scale m * -1,
   1024 * scale m, 1024 * scale m).

(** Where [drawSpecialPoints] draws the marker of the selected point. *)
Definition selectedMarker (m : State) : option Pair :=
  transformMapToViewport m <$> selectedPoint m.

(** The position [pos] is inside the range the clamps keep. *)
Definition inRange (size scale pos : Q) : Prop :=
  -1 * size / scale + 10 <= pos /\ pos <= 1024 - 10.

End RawMapPointer.

(** ** A concrete environment, to run the widget on examples *)

Module Example.

(** Screen distance of at most [r] on both axes. *)
Definition near (r : Q) (p q : Point) : bool :=
  Qle_bool (Qabs (px p - px q)) r && Qle_bool (Qabs (py p - py q)) r.

(** The point [p] of the screen lies in the rectangle spanned by [c1], [c2]. *)
Definition inside (p c1 c2 : Point) : bool :=
  Qle_bool (px c1) (px p) && Qle_bool (px p) (px c2)
  && Qle_bool (py c1) (py p) && Qle_bool (py p) (py c2).

(** An implementation of the locations along the lines of the
    specification. A tap within ten pixels of a goto point selects it, and
    the tap is consumed; a drag that starts there on a selected goto point
    moves it. A tap on the delete handle (the top right corner) of an active
    zone removes it, any other tap selects or deselects it without consuming
    the tap; a drag that starts inside an active zone moves it. *)
#[export] Instance specLocations : LocationsJs := {|
  has_translate _ := true;
  loc_tap l p t :=
    match l with
    | GotoPoint x y active =>
      if near 10 p (matrixTransform (mkPoint x y) t)
      then mkResult (Some (GotoPoint x y true)) true
      else mkResult (Some l) false
    | Zone x1 y1 x2 y2 active =>
      let c1 := matrixTransform (mkPoint x1 y1) t in
      let c2 := matrixTransform (mkPoint x2 y2) t in
      if active && near 10 p (mkPoint (px c2) (py c1)) then mkResult None true
      else mkResult (Some (Zone x1 y1 x2 y2 (inside p c1 c2))) false
    end;
  loc_translate l start last current t :=
    let dx := (px current - px last) / m_a t in
    let dy := (py current - py last) / m_d t in
    match l with
    | GotoPoint x y active =>
      if active && near 10 last (matrixTransform (mkPoint x y) t)
      then mkResult (Some (GotoPoint (x + dx) (y + dy) active)) true
      else mkResult (Some l) false
    | Zone x1 y1 x2 y2 active =>
      let c1 := matrixTransform (mkPoint x1 y1) t in
      let c2 := matrixTransform (mkPoint x2 y2) t in
      if active && inside last c1 c2 then
        mkResult (Some (Zone (x1 + dx) (y1 + dy) (x2 + dx) (y2 + dy) active)) true
      else mkResult (Some l) false
    end;
  GotoPoint_active := false;
  Zone_active := true
|}.

Definition dquote : string := String (Ascii.ascii_of_nat 34) EmptyString.

(** The text of a small frame: an object with the fields [image], [path] and
    [robot]. *)
Definition framePayload : string :=
  "{" ++ dquote ++ "image" ++ dquote ++ ":1,"
      ++ dquote ++ "path" ++ dquote ++ ":2,"
      ++ dquote ++ "robot" ++ dquote ++ ":3}".

Definition frameValue : JSValue :=
  JObject [("image", JNumber 1); ("path", JNumber 2); ("robot", JNumber 3)]%string.

(** Built-ins that are exact on the inputs of the examples: the parser knows
    the frame above and [null] and rejects every other text; the power is
    taken at the integer part of the exponent. *)
#[export] Instance builtins : Builtins := {|
  JSON_parse s :=
    if String.eqb s framePayload then Some frameValue
    else if String.eqb s "null" then Some JNull
    else None;
  Math_pow b x := Qpower b (Qfloor x)
|}.

(** A fresh widget over the identity transform. *)
Definition fresh : VacuumMap.State :=
  VacuumMap.mkState identityTransform [] (mkPoint 0 0) 0 0 None 1 []
    JUndefined (JUndefined, JUndefined, JUndefined) 0.


Definition tapAt (x y : Q) : VacuumMap.TapEvent :=
  {| VacuumMap.tappedCoordinates := mkPoint x y |}.

Definition pinchAt (x y s : Q) : VacuumMap.PinchEvent :=
  {| VacuumMap.center := mkPoint x y; VacuumMap.scale := s |}.

(** The fresh widget after a tap at (100, 200), and after [addZone] and a
    second tap at (300, 400). *)
Definition oneTap : VacuumMap.State :=
  default fresh (VacuumMap.tap fresh (tapAt 100 200)).

Definition tapZoneTap : VacuumMap.State :=
  default fresh (VacuumMap.tap (VacuumMap.addZone oneTap) (tapAt 300 400)).

End Example.

(** ** The viewport transforms of the raw-map renderer, in doubles *)

Module RawMapBinary64.

(** The fields the two transforms read, as IEEE-754 binary64 numbers. *)
Record State : Type := mkState {
  scale : float;
  viewportPosition : float * float
}.

(** [Map.prototype.transformViewportToMap], each operation rounded as the
    program rounds it. *)
Definition transformViewportToMap (m : State) (point : float * float)
    : float * float :=
  (fst (viewportPosition m) + fst point / scale m,
   snd (viewportPosition m) + snd point / scale m)%float.

(** [Map.prototype.transformMapToViewport]. *)
Definition transformMapToViewport (m : State) (point : float * float)
    : float * float :=
  ((fst point - fst (viewportPosition m)) * scale m,
   (snd point - snd (viewportPosition m)) * scale m)%float.

(** The renderer after one step of zooming in from the initial scale
    ([1 + 0.2 * 1], the double nearest to 1.2), with the viewport at
    (256, 256). *)
Definition zoomedIn : State :=
  mkState (1 + (2 / 10) * 1)%float (256, 256)%float.

(** [a === b] on pairs of numbers. *)
Definition pair_eqb (p q : float * float) : bool :=
  PrimFloat.eqb (fst p) (fst q) && PrimFloat.eqb (snd p) (snd q).

End RawMapBinary64.

(** ** More examples *)

Module ExampleMore.
Import Example.





(** A map image of 1024 x 512 units at (20, 30). *)
Definition wideImage : Canvas.MapImage :=
  {| Canvas.left := 20; Canvas.top := 30;
     Canvas.width := 1024; Canvas.height := 512 |}.

(** The raw-map renderer in a viewport of 400 x 300 pixels, zoomed in once. *)
Definition rawWidget : RawMapPointer.Widget :=
  RawMapPointer.mkWidget (RawMap.mkState (6 # 5) (312, 362) None) 400 300
    None false.

Definition pointerAt (x y : Q) : RawMapPointer.PointerEvent :=
  {| RawMapPointer.clientX := x; RawMapPointer.clientY := y |}.

(** The locations of the example environment, except that goto points have
    no [translate] function and so take no gestures. *)
Definition zonesOnly : LocationsJs :=
  {| has_translate := instanceof_Zone;
     loc_tap := loc_tap (LocationsJs := specLocations);
     loc_translate := loc_translate (LocationsJs := specLocations);
     GotoPoint_active := false;
     Zone_active := true |}.

(** A widget whose only location is a goto point at (100, 200). *)
Definition lonePoint : VacuumMap.State :=
  VacuumMap.set_locations [GotoPoint 100 200 false] fresh.


End ExampleMore.

(** * Properties *)

(** ** Rationals *)

Lemma Qfloor_eq (x : Q) (z : Z) : x == inject_Z z -> Qfloor x = z.
Proof. intros Hx. rewrite Hx. apply Qfloor_Z. Qed.

Lemma Qfloor_bounds (x : Q) : inject_Z (Qfloor x) <= x /\ x < inject_Z (Qfloor x) + 1.
Proof.
  split; [apply Qfloor_le|].
  pose proof (Qlt_floor x) as Hlt.
  rewrite inject_Z_plus in Hlt. exact Hlt.
Qed.

(** ** Dispatch of a gesture over the locations *)

Section DispatchProperties.
Context {L : LocationsJs} {B : Builtins}.
Import VacuumMap.

Variable handler : Location -> HandlerResult.

Lemma dispatchLoop_walk (fuel : nat) (done rest calls : list Location) :
  (length rest < fuel)%nat ->
  dispatchLoop handler fuel (done ++ rest) (length done) calls =
    Some (done ++ (walk handler rest).1.1, (walk handler rest).1.2,
          calls ++ (walk handler rest).2).
Proof.
  revert done rest calls.
  induction fuel as [|fuel IH]; intros done rest calls Hfuel; [lia|].
  destruct rest as [|l rest]; simpl.
  - rewrite lookup_ge_None_2 by (rewrite length_app; simpl; lia).
    by rewrite !app_nil_r.
  - rewrite list_lookup_middle by done.
    simpl in Hfuel. unfold settle.
    destruct (has_translate l) eqn:Hcap.
    + destruct (updatedLocation (handler l)) as [u|] eqn:Hupd.
      * rewrite insert_app_r_alt by lia. rewrite Nat.sub_diag. simpl.
        destruct (stopPropagation (handler l)) eqn:Hstop; [done|].
        specialize (IH (done ++ [u]) rest (calls ++ [l])).
        rewrite length_app, Nat.add_1_r, <- !app_assoc in IH. simpl in IH.
        rewrite IH by lia.
        destruct (walk handler rest) as [[rest' stopped] calls0]; simpl.
        by rewrite <- ?app_assoc.
      * rewrite delete_middle.
        destruct (stopPropagation (handler l)) eqn:Hstop; [done|].
        rewrite (IH done rest (calls ++ [l])) by lia.
        destruct (walk handler rest) as [[rest' stopped] calls0]; simpl.
        by rewrite <- ?app_assoc.
    + specialize (IH (done ++ [l]) rest calls).
      rewrite length_app, Nat.add_1_r, <- !app_assoc in IH. simpl in IH.
      rewrite IH by lia.
      by destruct (walk handler rest) as [[rest' stopped] calls0].
Qed.

(** The loop ends within its fuel and computes the one pass [walk]. *)
Lemma dispatch_walk (locations : list Location) :
  dispatch handler locations = Some (walk handler locations).
Proof.
  unfold dispatch.
  pose proof (dispatchLoop_walk (S (length locations)) [] locations []) as Hloop.
  cbn [app length] in Hloop. rewrite Hloop by lia.
  by destruct (walk handler locations) as [[? ?] ?].
Qed.

Lemma walk_offered (locations : list Location) :
  walk handler locations =
    (flat_map (settle handler) (take (offered handler locations) locations)
       ++ drop (offered handler locations) locations,
     was_consumed handler locations,
     List.filter has_translate (take (offered handler locations) locations)).
Proof.
  unfold offered, was_consumed.
  induction locations as [|l rest IH]; [done|].
  simpl. unfold consumes.
  destruct (has_translate l) eqn:Hcap; simpl.
  - destruct (stopPropagation (handler l)) eqn:Hstop; simpl.
    + rewrite ?take_0, ?drop_0. simpl. by rewrite ?app_nil_r, ?Hcap.
    + rewrite IH.
      destruct (first_consumer handler rest) as [k|]; simpl;
        by rewrite ?Hcap, <- ?app_assoc.
  - rewrite IH. unfold settle.
    destruct (first_consumer handler rest) as [k|]; simpl; by rewrite ?Hcap.
Qed.

(** [first_consumer] is the least position whose location consumes. *)
Lemma first_consumer_Some (locations : list Location) (k : nat) :
  first_consumer handler locations = Some k <->
  (exists l, locations !! k = Some l /\ consumes handler l = true) /\
  (forall j l, (j < k)%nat -> locations !! j = Some l -> consumes handler l = false).
Proof.
  revert k. induction locations as [|l rest IH]; intros k; simpl.
  - split; [done|]. by intros [[l [Hl _]] _].
  - destruct (consumes handler l) eqn:Hc.
    + split.
      * intros [= <-]. split; [by exists l|]. intros j l' Hj. lia.
      * intros [_ Hbefore]. destruct k as [|k]; [done|].
        specialize (Hbefore 0%nat l ltac:(lia) eq_refl). congruence.
    + destruct k as [|k].
      * split.
        -- destruct (first_consumer handler rest); done.
        -- intros [[l' [Hl' Hc']] _]. simpl in Hl'. congruence.
      * rewrite fmap_Some. split.
        -- intros [k' [Hk' [= ->]]]. apply IH in Hk' as [Hex Hbefore].
           split; [done|]. intros [|j] l' Hj Hl'; simpl in Hl'.
           ++ congruence.
           ++ apply (Hbefore j); [lia|done].
        -- intros [Hex Hbefore]. exists k. split; [|done].
           apply IH. split; [done|]. intros j l' Hj Hl'.
           apply (Hbefore (S j)); [lia|done].
Qed.

Lemma first_consumer_None (locations : list Location) :
  first_consumer handler locations = None <->
  Forall (fun l => consumes handler l = false) locations.
Proof.
  induction locations as [|l rest IH]; simpl.
  - split; [constructor|done].
  - destruct (consumes handler l) eqn:Hc.
    + split; [done|]. intros Hall. inversion Hall. congruence.
    + rewrite fmap_None, IH. split.
      * by constructor.
      * intros Hall. by inversion Hall.
Qed.

Lemma dispatch_offered (locations : list Location) :
  dispatch handler locations =
    Some (dispatched handler locations, was_consumed handler locations,
          called handler locations).
Proof. rewrite dispatch_walk. by rewrite walk_offered. Qed.

End DispatchProperties.

Section WidgetProperties.
Context {L : LocationsJs} {B : Builtins}.
Import VacuumMap.

Lemma tap_dispatched (w : State) (evt : TapEvent) :
  tap w evt =
    Some (set_locations
            (if was_consumed (tapHandler w evt) (locations w)
             then dispatched (tapHandler w evt) (locations w)
             else placeGotoPoint (tappedPoint w evt)
                    (dispatched (tapHandler w evt) (locations w))) w).
Proof.
  unfold tap. rewrite dispatch_offered.
  by destruct (was_consumed (tapHandler w evt) (locations w)).
Qed.

Lemma moveTranslate_dispatched (w : State) (evt : PanMoveEvent) :
  moveTranslate w evt =
    let p := relativeCoordinates (currentCoordinates evt) (rect w) in
    match dragStart w with
    | None => Some (set_last p w)
    | Some start =>
      let h := translateHandler w start evt in
      let w1 := set_locations (dispatched h (locations w)) (set_last p w) in
      if was_consumed h (locations w) then Some w1
      else
        let pt := transformedPoint (ctx w) (px p) (py p) in
        Some (set_ctx
                (ctx_translate (px pt - px start) (py pt - py start) (ctx w)) w1)
    end.
Proof.
  unfold moveTranslate. destruct (dragStart w) as [start|]; [|done].
  rewrite dispatch_offered.
  by destruct (was_consumed (translateHandler w start evt) (locations w)).
Qed.

(** C1. A tap or pan-move offers the gesture to the locations in list order,
    up to and including the first one whose handler asks to stop
    ([offered] of them): the handler calls are exactly the interactive
    locations among those, in list order ([called]); each location called is
    replaced by its [updatedLocation] or, when the result has none, removed on
    the spot, and the locations behind the first consumer are neither called
    nor changed ([dispatched]). [tap] and [moveTranslate] continue with that
    list and do nothing more to it once a location has consumed the gesture. *)
Theorem gesture_dispatch_in_list_order (w : State) :
  (forall handler locs,
     dispatch handler locs =
       Some (dispatched handler locs, was_consumed handler locs,
             called handler locs)) /\
  (forall evt,
     tap w evt =
       Some (set_locations
               (if was_consumed (tapHandler w evt) (locations w)
                then dispatched (tapHandler w evt) (locations w)
                else placeGotoPoint (tappedPoint w evt)
                       (dispatched (tapHandler w evt) (locations w))) w)) /\
  (forall evt,
     moveTranslate w evt =
       let p := relativeCoordinates (currentCoordinates evt) (rect w) in
       match dragStart w with
       | None => Some (set_last p w)
       | Some start =>
         let h := translateHandler w start evt in
         let w1 := set_locations (dispatched h (locations w)) (set_last p w) in
         if was_consumed h (locations w) then Some w1
         else
           let pt := transformedPoint (ctx w) (px p) (py p) in
           Some (set_ctx
                   (ctx_translate (px pt - px start) (py pt - py start) (ctx w))
                   w1)
       end).
Proof.
  split; [|split].
  - intros handler locs. apply dispatch_offered.
  - apply tap_dispatched.
  - apply moveTranslate_dispatched.
Qed.

(** ** At most one goto point *)

Lemma countGotoPoints_app (l1 l2 : list Location) :
  countGotoPoints (l1 ++ l2) = (countGotoPoints l1 + countGotoPoints l2)%nat.
Proof. unfold countGotoPoints. by rewrite List.filter_app, length_app. Qed.

Lemma countGotoPoints_one (l : Location) :
  countGotoPoints [l] = if instanceof_GotoPoint l then 1%nat else 0%nat.
Proof. unfold countGotoPoints. simpl. by destruct (instanceof_GotoPoint l). Qed.

Lemma countGotoPoints_settle (w : State) (evt : TapEvent) (l : Location) :
  zones_stay_zones ->
  (countGotoPoints (settle (tapHandler w evt) l) <= countGotoPoints [l])%nat.
Proof.
  intros Hzone. unfold settle.
  destruct (has_translate l); [|done].
  destruct (updatedLocation (tapHandler w evt l)) as [u|] eqn:Hu.
  - rewrite !countGotoPoints_one.
    destruct (instanceof_GotoPoint l) eqn:Hl.
    + destruct (instanceof_GotoPoint u); lia.
    + by rewrite (Hzone _ _ _ _ Hl Hu).
  - unfold countGotoPoints at 1. simpl. lia.
Qed.

Lemma countGotoPoints_flat_map (w : State) (evt : TapEvent) (ls : list Location) :
  zones_stay_zones ->
  (countGotoPoints (flat_map (settle (tapHandler w evt)) ls)
   <= countGotoPoints ls)%nat.
Proof.
  intros Hzone. induction ls as [|l ls IH]; [done|].
  simpl. change (l :: ls) with ([l] ++ ls).
  rewrite !countGotoPoints_app.
  pose proof (countGotoPoints_settle w evt l Hzone). lia.
Qed.

Lemma countGotoPoints_dispatched (w : State) (evt : TapEvent) (ls : list Location) :
  zones_stay_zones ->
  (countGotoPoints (dispatched (tapHandler w evt) ls) <= countGotoPoints ls)%nat.
Proof.
  intros Hzone. unfold dispatched.
  set (n := offered (tapHandler w evt) ls).
  assert (countGotoPoints ls
          = (countGotoPoints (take n ls) + countGotoPoints (drop n ls))%nat)
    as -> by (by rewrite <- countGotoPoints_app, take_drop).
  rewrite countGotoPoints_app.
  pose proof (countGotoPoints_flat_map w evt (take n ls) Hzone). lia.
Qed.

Lemma countGotoPoints_place (p : Point) (ls : list Location) :
  (countGotoPoints ls <= 1)%nat ->
  (countGotoPoints (placeGotoPoint p ls) <= 1)%nat.
Proof.
  intros Hle. unfold placeGotoPoint.
  destruct ls as [|l [|l' ls]]; simpl; try done.
  destruct (instanceof_GotoPoint l); done.
Qed.

Lemma countGotoPoints_addZone (w : State) :
  countGotoPoints (locations (addZone w)) = countGotoPoints (locations w).
Proof.
  unfold addZone. simpl. rewrite countGotoPoints_app.
  rewrite countGotoPoints_one. simpl. rewrite Nat.add_0_r.
  induction (locations w) as [|l ls IH]; [done|].
  simpl. change (deactivate l :: map deactivate ls)
    with ([deactivate l] ++ map deactivate ls).
  change (l :: ls) with ([l] ++ ls).
  rewrite !countGotoPoints_app, IH, !countGotoPoints_one.
  by destruct l.
Qed.

Lemma reachable_countGotoPoints (w : State) :
  zones_stay_zones -> reachable w -> (countGotoPoints (locations w) <= 1)%nat.
Proof.
  intros Hzone Hreach. induction Hreach as [w Hw|w evt w' _ IH Htap|w _ IH|w w' _ IH Hw].
  - rewrite Hw. unfold countGotoPoints. simpl. lia.
  - rewrite tap_dispatched in Htap. injection Htap as <-. simpl.
    pose proof (countGotoPoints_dispatched w evt (locations w) Hzone) as Hd.
    destruct (was_consumed (tapHandler w evt) (locations w)); [lia|].
    apply countGotoPoints_place. lia.
  - by rewrite countGotoPoints_addZone.
  - by rewrite Hw.
Qed.

Lemma dispatched_single (handler : Location -> HandlerResult) (g : Location) :
  dispatched handler [g] = settle handler g.
Proof.
  unfold dispatched, offered. simpl.
  destruct (consumes handler g); simpl; by rewrite ?app_nil_r.
Qed.

Lemma tap_single_GotoPoint (w : State) (evt : TapEvent) (g : Location) :
  goto_points_stay ->
  locations w = [g] ->
  instanceof_GotoPoint g = true ->
  exists w' g',
    tap w evt = Some w' /\ locations w' = [g'] /\
    instanceof_GotoPoint g' = true /\
    (was_consumed (tapHandler w evt) [g] = false ->
     g' = new_GotoPoint (px (tappedPoint w evt)) (py (tappedPoint w evt))).
Proof.
  intros Hgoto Hw Hg. rewrite tap_dispatched, Hw, dispatched_single.
  assert (exists u, settle (tapHandler w evt) g = [u]
                    /\ instanceof_GotoPoint u = true) as [u [Hu Hgu]].
  { unfold settle. destruct (has_translate g) eqn:Hcap; [|by exists g].
    destruct (Hgoto g (relativeCoordinates (tappedCoordinates evt) (rect w))
                (ctx w) Hg Hcap) as [u [Hu Hgu]].
    exists u. unfold tapHandler. by rewrite Hu. }
  rewrite Hu.
  destruct (was_consumed (tapHandler w evt) [g]) eqn:Hc.
  - eexists _, u. split; [done|]. simpl. done.
  - eexists _, _. split; [done|]. unfold placeGotoPoint. simpl. rewrite Hgu.
    simpl. done.
Qed.

(** C2. Provided the tap handlers keep the class of the location they are
    called on, every state reached by taps and [addZone] holds at most one
    goto point; and a tap on a list that is exactly one goto point leaves
    exactly one goto point: the one the handler hands back if the goto point
    consumed the tap, else a new one at the tapped point. *)
Theorem at_most_one_GotoPoint :
  zones_stay_zones ->
  goto_points_stay ->
  (forall w, reachable w -> (countGotoPoints (locations w) <= 1)%nat) /\
  (forall w evt g,
     locations w = [g] ->
     instanceof_GotoPoint g = true ->
     exists w' g',
       tap w evt = Some w' /\ locations w' = [g'] /\
       length (locations w') = 1%nat /\
       instanceof_GotoPoint g' = true /\
       (was_consumed (tapHandler w evt) [g] = false ->
        g' = new_GotoPoint (px (tappedPoint w evt)) (py (tappedPoint w evt)))).
Proof.
  intros Hzone Hgoto. split.
  - intros w. by apply reachable_countGotoPoints.
  - intros w evt g Hw Hg.
    destruct (tap_single_GotoPoint w evt g Hgoto Hw Hg)
      as [w' [g' [Htap [Hw' [Hg' Hnew]]]]].
    exists w', g'. rewrite Hw'. done.
Qed.

End WidgetProperties.

Section WidgetScenarios.
Context {L : LocationsJs} {B : Builtins}.
Import VacuumMap.

(** ** Conversion to robot coordinates *)

(** C7. A tap whose map-space point is (100, 200), on a widget without
    locations, leaves exactly one goto point, at (100, 200), and
    [getLocations] then reports no zone and the goto point
    [{x: 5000, y: 10000}]. *)
Theorem tap_on_empty_map (w : State) (evt : TapEvent) :
  locations w = [] ->
  Point_eq (tappedPoint w evt) (mkPoint 100 200) ->
  exists w' x y,
    tap w evt = Some w' /\
    locations w' = [GotoPoint x y GotoPoint_active] /\
    x == 100 /\ y == 200 /\
    getLocations w' = {| zones := []; gotoPoints := [mkReal 5000 10000] |}.
Proof.
  intros Hw [Hx Hy]. rewrite tap_dispatched, Hw.
  set (tp := tappedPoint w evt) in *. clearbody tp.
  cbn [px py] in Hx, Hy.
  exists (set_locations [GotoPoint (px tp) (py tp) GotoPoint_active] w),
         (px tp), (py tp).
  split; [reflexivity|]. split; [reflexivity|].
  split; [exact Hx|]. split; [exact Hy|].
  unfold getLocations. cbn [locations set_locations omap list_omap].
  unfold prepareGotoCoordinatesForApi, convertToRealCoords. cbn [px py rx ry].
  rewrite (Qfloor_eq (px tp * 50) 5000) by (rewrite Hx; reflexivity).
  rewrite (Qfloor_eq (py tp * 50) 10000) by (rewrite Hy; reflexivity).
  reflexivity.
Qed.




Lemma floor_round_trip (c : Q) :
  c - (1 # 50) < inject_Z (Qfloor (c * 50)) / 50 /\
  inject_Z (Qfloor (c * 50)) / 50 <= c.
Proof.
  destruct (Qfloor_bounds (c * 50)) as [Hle Hlt].
  set (z := inject_Z (Qfloor (c * 50))) in *.
  split.
  - apply Qlt_shift_div_l; [reflexivity|]. lra.
  - apply Qle_shift_div_r; [reflexivity|]. lra.
Qed.

(** C4. Converting a map-space point to millimetres and dividing the result
    by the factor 50 gives back each coordinate to within one unit; in fact
    the result lies at most a fiftieth below the coordinate and never above
    it. *)
Theorem real_coords_round_trip (p : Point) :
  let r := convertToRealCoords p in
  Qabs (inject_Z (rx r) / 50 - px p) <= 1 /\
  Qabs (inject_Z (ry r) / 50 - py p) <= 1 /\
  (px p - (1 # 50) < inject_Z (rx r) / 50 /\ inject_Z (rx r) / 50 <= px p) /\
  (py p - (1 # 50) < inject_Z (ry r) / 50 /\ inject_Z (ry r) / 50 <= py p).
Proof.
  intros r. subst r. unfold convertToRealCoords. cbn [rx ry].
  pose proof (floor_round_trip (px p)) as [Hx1 Hx2].
  pose proof (floor_round_trip (py p)) as [Hy1 Hy2].
  split; [apply (proj2 (Qabs_Qle_condition _ _)); split; lra|].
  split; [apply (proj2 (Qabs_Qle_condition _ _)); split; lra|].
  split; split; assumption.
Qed.

End WidgetScenarios.

Section ZoomAndLiveUpdates.
Context {L : LocationsJs} {B : Builtins}.
Import VacuumMap.

(** ** Zooming *)

Lemma scaleAbout_scale (pt : Point) (factor : Q) (t : Transform) :
  m_a (scaleAbout pt factor t) = m_a t * factor /\
  m_d (scaleAbout pt factor t) = m_d t * factor.
Proof. split; reflexivity. Qed.




Lemma pinchMoves_snoc (w : State) (moves : list PinchEvent) (evt : PinchEvent) :
  pinchMoves w (moves ++ [evt]) = state_of (scalePinch (pinchMoves w moves) evt).
Proof. unfold pinchMoves. by rewrite fold_left_app. Qed.




(** ** Live updates *)

(** C9. A message whose payload does not parse is dropped: the handler
    returns, and the only change is the reset of the heartbeat, so the frames
    on display are the ones before the message. An empty message does the
    same. A message that is not empty and parses to an object with [image],
    [path] and [robot] puts these on display. Every message resets the
    heartbeat. *)
Theorem onmessage_frames (w : State) (data : string) :
  heartbeats (onmessage w data) = S (heartbeats w) /\
  (JSON_parse data = None ->
   onmessage w data = resetHeartbeat w /\ frames (onmessage w data) = frames w) /\
  (data = EmptyString -> onmessage w data = resetHeartbeat w) /\
  (forall mapData image path robot,
     data <> EmptyString ->
     JSON_parse data = Some mapData ->
     getProperty mapData "image" = Some image ->
     getProperty mapData "path" = Some path ->
     getProperty mapData "robot" = Some robot ->
     onmessage w data = set_frames image (path, robot, JUndefined) (resetHeartbeat w)
     /\ frames (onmessage w data) = (image, (path, robot, JUndefined))).
Proof.
  unfold onmessage. split; [|split; [|split]].
  - destruct (String.eqb data EmptyString); [done|].
    destruct (JSON_parse data) as [mapData|]; [|done].
    unfold updateMap.
    destruct (getProperty mapData "image"); [|done].
    destruct (getProperty mapData "path"); [|done].
    destruct (getProperty mapData "robot"); done.
  - intros Hparse. rewrite Hparse.
    destruct (String.eqb data EmptyString); done.
  - intros ->. done.
  - intros mapData image path robot Hdata Hparse Himage Hpath Hrobot.
    apply String.eqb_neq in Hdata. rewrite Hdata, Hparse.
    unfold updateMap. rewrite Himage, Hpath, Hrobot. done.
Qed.

(** A run of empty or malformed messages leaves the last good frame on
    display. *)
Lemma receive_dropped (messages : list string) (w : State) :
  Forall dropped messages -> frames (receive w messages) = frames w.
Proof.
  revert w. induction messages as [|data messages IH]; intros w Hall; [done|].
  inversion Hall as [|? ? Hdata Hrest]; subst.
  change (receive w (data :: messages))
    with (receive (onmessage w data) messages).
  rewrite IH by done. unfold onmessage.
  destruct Hdata as [-> | Hparse]; [done|].
  rewrite Hparse. by destruct (String.eqb data EmptyString).
Qed.

End ZoomAndLiveUpdates.

(** ** The raw-map renderer *)

Module RawMapProperties.
Import RawMap.

(** C10 (amended). Read over exact arithmetic, [transformViewportToMap] and
    [transformMapToViewport] undo each other, in both orders, for every point
    and every positive scale. (In the double arithmetic of the program the
    round trip is not always exact, see [viewport_round_trip_rounds].) *)
Theorem viewport_map_inverse (m : State) (p : Pair) :
  0 < scale m ->
  Pair_eq (transformMapToViewport m (transformViewportToMap m p)) p /\
  Pair_eq (transformViewportToMap m (transformMapToViewport m p)) p.
Proof.
  intros Hscale.
  assert (~ scale m == 0) as Hnz by lra.
  unfold Pair_eq, transformMapToViewport, transformViewportToMap.
  cbn [fst snd]. repeat split; field; exact Hnz.
Qed.


(** *** Bytes *)

Lemma to_N_byte_of_N (n : N) : Byte.to_N (byte_of_N n) = (n mod 256)%N.
Proof.
  unfold byte_of_N.
  destruct (Byte.of_N (n mod 256)) as [b|] eqn:Hb.
  - by apply Byte.to_of_N.
  - apply Byte.of_N_None_iff in Hb.
    pose proof (N.mod_upper_bound n 256 ltac:(done)). lia.
Qed.

Lemma byte_of_N_to_N (b : byte) : byte_of_N (Byte.to_N b) = b.
Proof.
  unfold byte_of_N. rewrite N.mod_small.
  - by rewrite Byte.of_to_N.
  - pose proof (Byte.to_N_bounded b). lia.
Qed.

Lemma lookup_after {A : Type} (pre l : list A) (k : nat) :
  (pre ++ l) !! (length pre + k)%nat = l !! k.
Proof. rewrite lookup_app_r by lia. f_equal. lia. Qed.

Lemma be32_value (n : N) :
  uint32 n ->
  (((n / 16777216 mod 256 * 256 + n / 65536 mod 256) * 256
    + n / 256 mod 256) * 256 + n mod 256 = n)%N.
Proof.
  unfold uint32. intros Hn. zify. Z.to_euclidean_division_equations. lia.
Qed.

Lemma getUint32_be32 (pre rest : list byte) (n : N) :
  uint32 n -> getUint32 (pre ++ be32 n ++ rest) (length pre) = Some n.
Proof.
  intros Hn. unfold getUint32. cbn [be32 app].
  rewrite list_lookup_middle by done.
  rewrite (lookup_after pre _ 1), (lookup_after pre _ 2), (lookup_after pre _ 3).
  cbn [lookup list_lookup].
  rewrite !to_N_byte_of_N. by rewrite be32_value.
Qed.

Lemma getUint8_byte (pre rest : list byte) (k : nat) (n : N) :
  uint8 n ->
  rest !! k = Some (byte_of_N n) ->
  getUint8 (pre ++ rest) (length pre + k) = Some n.
Proof.
  unfold uint8, getUint8. intros Hn Hk.
  rewrite lookup_after, Hk. cbn [fmap option_fmap option_map].
  rewrite to_N_byte_of_N. f_equal. by apply N.mod_small.
Qed.

Lemma byte_of_N_mod (x : N) (b : byte) :
  (x mod 256 = Byte.to_N b)%N -> byte_of_N x = b.
Proof.
  intros Hx. rewrite <- (byte_of_N_to_N b). unfold byte_of_N.
  rewrite Hx. rewrite N.mod_small; [done|].
  pose proof (Byte.to_N_bounded b). lia.
Qed.

(** The four bytes [getUint32] combines are the big-endian bytes of its
    result. *)
Lemma be32_bytes (b0 b1 b2 b3 : byte) :
  let n := (((Byte.to_N b0 * 256 + Byte.to_N b1) * 256 + Byte.to_N b2) * 256
            + Byte.to_N b3)%N in
  be32 n = [b0; b1; b2; b3] /\ uint32 n.
Proof.
  intros n. subst n.
  pose proof (Byte.to_N_bounded b0). pose proof (Byte.to_N_bounded b1).
  pose proof (Byte.to_N_bounded b2). pose proof (Byte.to_N_bounded b3).
  split; [|unfold uint32; lia].
  unfold be32.
  repeat f_equal; apply byte_of_N_mod;
    zify; Z.to_euclidean_division_equations; lia.
Qed.

Lemma length_image_layout (records : list ImageRecord) :
  length (image_layout records) = (7 * length records)%nat.
Proof.
  induction records as [|[[[pos r] g] b] records IH]; [done|].
  unfold image_layout in *. cbn [flat_map]. rewrite length_app, IH.
  cbn [be32 app length]. lia.
Qed.

Lemma length_path_layout (pairs : list (N * N)) :
  length (path_layout pairs) = (8 * length pairs)%nat.
Proof.
  induction pairs as [|[x y] pairs IH]; [done|].
  unfold path_layout in *. cbn [flat_map]. rewrite length_app, IH.
  cbn [be32 app length]. lia.
Qed.

(** *** The image loop reads the packed layout, and nothing else *)

Lemma readImageLoop_layout (records : list ImageRecord) :
  forall (fuel : nat) (pre : list byte) (acc : list ImageRecord),
    Forall image_record_ok records ->
    (length records < fuel)%nat ->
    readImageLoop fuel (pre ++ image_layout records) (length pre) acc
      = Finished (acc ++ records).
Proof.
  induction records as [|[[[pos r] g] b] records IH];
    intros fuel pre acc Hok Hfuel;
    (destruct fuel as [|fuel]; [simpl in Hfuel; lia|]).
  - cbn [readImageLoop image_layout flat_map]. rewrite !app_nil_r.
    by rewrite Nat.ltb_irrefl.
  - inversion Hok as [|? ? Hrec Hrest]; subst.
    unfold image_record_ok in Hrec. destruct Hrec as [Hpos [Hr [Hg Hb]]].
    cbn [readImageLoop].
    change (image_layout ((pos, r, g, b) :: records))
      with ((be32 pos ++ [byte_of_N r; byte_of_N g; byte_of_N b])
              ++ image_layout records).
    replace (length pre <? length (pre ++ (be32 pos ++ [byte_of_N r; byte_of_N g; byte_of_N b]) ++ image_layout records))%nat
      with true
      by (symmetry; apply Nat.ltb_lt; rewrite !length_app; cbn [be32 app length]; lia).
    rewrite <- (app_assoc (be32 pos)).
    rewrite (getUint32_be32 pre _ pos Hpos).
    rewrite (app_assoc (be32 pos)).
    rewrite (getUint8_byte pre _ 4 r Hr) by done.
    rewrite (getUint8_byte pre _ 5 g Hg) by done.
    rewrite (getUint8_byte pre _ 6 b Hb) by done.
    rewrite (app_assoc pre).
    replace (length pre + 7)%nat
      with (length (pre ++ be32 pos ++ [byte_of_N r; byte_of_N g; byte_of_N b]))
      by (rewrite !length_app; cbn [be32 app length]; lia).
    rewrite IH by (try done; simpl in Hfuel; lia).
    by rewrite <- app_assoc.
Qed.

Lemma readImageLoop_inv (fuel : nat) :
  forall (pre rest : list byte) (acc out : list ImageRecord),
    readImageLoop fuel (pre ++ rest) (length pre) acc = Finished out ->
    exists records,
      out = acc ++ records /\ rest = image_layout records /\
      Forall image_record_ok records.
Proof.
  induction fuel as [|fuel IH]; intros pre rest acc out Hrun; [done|].
  cbn [readImageLoop] in Hrun.
  destruct (length pre <? length (pre ++ rest))%nat eqn:Hlt.
  - destruct (getUint32 (pre ++ rest) (length pre)) as [pos|] eqn:Hpos; [|done].
    destruct (getUint8 (pre ++ rest) (length pre + 4)) as [r|] eqn:Hr; [|done].
    destruct (getUint8 (pre ++ rest) (length pre + 5)) as [g|] eqn:Hg; [|done].
    destruct (getUint8 (pre ++ rest) (length pre + 6)) as [b|] eqn:Hb; [|done].
    unfold getUint8 in Hr, Hg, Hb. rewrite lookup_after in Hr, Hg, Hb.
    destruct rest as [|b0 [|b1 [|b2 [|b3 [|br [|bg [|bb rest]]]]]]];
      try done.
    unfold getUint32 in Hpos.
    rewrite list_lookup_middle in Hpos by done.
    rewrite (lookup_after pre _ 1), (lookup_after pre _ 2),
            (lookup_after pre _ 3) in Hpos.
    cbn [lookup list_lookup] in Hpos, Hr, Hg, Hb.
    cbn [fmap option_fmap option_map] in Hr, Hg, Hb.
    injection Hpos as <-. injection Hr as <-. injection Hg as <-.
    injection Hb as <-.
    destruct (be32_bytes b0 b1 b2 b3) as [Hbytes Hrange]. cbn zeta in *.
    specialize (IH (pre ++ [b0; b1; b2; b3; br; bg; bb]) rest).
    rewrite length_app, <- app_assoc in IH. cbn [app length] in IH.
    apply IH in Hrun as [records [-> [-> Hok]]].
    eexists (_ :: records). split; [by rewrite <- app_assoc|]. split.
    + unfold image_layout. cbn [flat_map]. rewrite Hbytes.
      by rewrite !byte_of_N_to_N.
    + constructor; [|done]. split; [done|].
      unfold uint8.
      pose proof (Byte.to_N_bounded br). pose proof (Byte.to_N_bounded bg).
      pose proof (Byte.to_N_bounded bb). lia.
  - injection Hrun as <-. apply Nat.ltb_ge in Hlt.
    rewrite length_app in Hlt.
    exists []. rewrite app_nil_r. split; [done|]. split; [|constructor].
    destruct rest; [done|]. simpl in Hlt. lia.
Qed.

Lemma readImage_layout (data : list byte) (records : list ImageRecord) :
  readImage data = Finished records <->
  data = image_layout records /\ Forall image_record_ok records.
Proof.
  unfold readImage. split.
  - intros Hrun.
    destruct (readImageLoop_inv (S (length data)) [] data [] records Hrun)
      as [records' [-> [-> Hok]]].
    done.
  - intros [-> Hok].
    apply (readImageLoop_layout records (S _) [] [] Hok).
    rewrite length_image_layout. lia.
Qed.

(** *** The path loop *)

Lemma readPathLoop_layout (pairs : list (N * N)) :
  forall (fuel : nat) (pre : list byte) (acc : list (N * N)),
    Forall path_pair_ok pairs ->
    (length pairs < fuel)%nat ->
    readPathLoop fuel (pre ++ path_layout pairs) (length pre) acc
      = Finished (acc ++ pairs).
Proof.
  induction pairs as [|[x y] pairs IH]; intros fuel pre acc Hok Hfuel;
    (destruct fuel as [|fuel]; [simpl in Hfuel; lia|]).
  - cbn [readPathLoop path_layout flat_map]. rewrite !app_nil_r.
    by rewrite Nat.ltb_irrefl.
  - inversion Hok as [|? ? [Hx Hy] Hrest]; subst. cbn [fst snd] in Hx, Hy.
    cbn [readPathLoop].
    change (path_layout ((x, y) :: pairs))
      with ((be32 x ++ be32 y) ++ path_layout pairs).
    replace (length pre <? length (pre ++ (be32 x ++ be32 y) ++ path_layout pairs))%nat
      with true
      by (symmetry; apply Nat.ltb_lt; rewrite !length_app; cbn [be32 app length]; lia).
    rewrite <- (app_assoc (be32 x)).
    rewrite (getUint32_be32 pre _ x Hx).
    rewrite (app_assoc pre (be32 x)).
    replace (length pre + 4)%nat with (length (pre ++ be32 x))
      by (rewrite length_app; cbn [be32 length]; lia).
    rewrite (getUint32_be32 (pre ++ be32 x) _ y Hy).
    rewrite <- (app_assoc pre (be32 x)), (app_assoc (be32 x)), (app_assoc pre).
    replace (length (pre ++ be32 x) + 4)%nat
      with (length (pre ++ be32 x ++ be32 y))
      by (rewrite !length_app; cbn [be32 length]; lia).
    replace (length pre + 8)%nat with (length (pre ++ be32 x ++ be32 y))
      by (rewrite !length_app; cbn [be32 length]; lia).
    rewrite IH by (try done; simpl in Hfuel; lia).
    by rewrite <- app_assoc.
Qed.

Lemma readPathLoop_inv (fuel : nat) :
  forall (pre rest : list byte) (acc out : list (N * N)),
    readPathLoop fuel (pre ++ rest) (length pre) acc = Finished out ->
    exists pairs,
      out = acc ++ pairs /\ rest = path_layout pairs /\
      Forall path_pair_ok pairs.
Proof.
  induction fuel as [|fuel IH]; intros pre rest acc out Hrun; [done|].
  cbn [readPathLoop] in Hrun.
  destruct (length pre <? length (pre ++ rest))%nat eqn:Hlt.
  - destruct (getUint32 (pre ++ rest) (length pre)) as [x|] eqn:Hx; [|done].
    destruct (getUint32 (pre ++ rest) (length pre + 4)) as [y|] eqn:Hy; [|done].
    unfold getUint32 in Hx, Hy.
    rewrite <- !Nat.add_assoc in Hy. rewrite !lookup_after in Hy.
    destruct rest as [|b0 [|b1 [|b2 [|b3 [|c0 [|c1 [|c2 [|c3 rest]]]]]]]];
      try done.
    rewrite list_lookup_middle in Hx by done.
    rewrite (lookup_after pre _ 1), (lookup_after pre _ 2),
            (lookup_after pre _ 3) in Hx.
    cbn [lookup list_lookup Nat.add] in Hx, Hy.
    injection Hx as <-. injection Hy as <-.
    destruct (be32_bytes b0 b1 b2 b3) as [Hbx Hrx].
    destruct (be32_bytes c0 c1 c2 c3) as [Hby Hry]. cbn zeta in *.
    specialize (IH (pre ++ [b0; b1; b2; b3; c0; c1; c2; c3]) rest).
    rewrite length_app, <- app_assoc in IH. cbn [app length] in IH.
    apply IH in Hrun as [pairs [-> [-> Hok]]].
    eexists (_ :: pairs). split; [by rewrite <- app_assoc|]. split.
    + unfold path_layout. cbn [flat_map]. by rewrite Hbx, Hby.
    + constructor; [|done]. split; done.
  - injection Hrun as <-. apply Nat.ltb_ge in Hlt.
    rewrite length_app in Hlt.
    exists []. rewrite app_nil_r. split; [done|]. split; [|constructor].
    destruct rest; [done|]. simpl in Hlt. lia.
Qed.

Lemma readPath_layout (data : list byte) (pairs : list (N * N)) :
  readPath data = Finished pairs <->
  data = path_layout pairs /\ Forall path_pair_ok pairs.
Proof.
  unfold readPath. split.
  - intros Hrun.
    destruct (readPathLoop_inv (S (length data)) [] data [] pairs Hrun)
      as [pairs' [-> [-> Hok]]].
    done.
  - intros [-> Hok].
    apply (readPathLoop_layout pairs (S _) [] [] Hok).
    rewrite length_path_layout. lia.
Qed.

End RawMapProperties.

(** C6 (amended). The image loop of [updateMapData] ends normally exactly on
    the payloads made of seven-byte records (the pixel index as four bytes,
    most significant first, then one byte each for [r], [g] and [b], with no
    padding), and then reads exactly these records; the path loop of
    [drawPath] ends normally exactly on the payloads made of eight-byte pairs
    (four bytes for [x], four bytes for [y], most significant first, with no
    padding), and then reads exactly these pairs. *)
Theorem decoders_read_packed_layouts (data : list byte) :
  (forall records,
     RawMap.readImage data = RawMap.Finished records <->
     data = RawMap.image_layout records
     /\ Forall RawMap.image_record_ok records) /\
  (forall pairs,
     RawMap.readPath data = RawMap.Finished pairs <->
     data = RawMap.path_layout pairs /\ Forall RawMap.path_pair_ok pairs).
Proof.
  split.
  - intros records. apply RawMapProperties.readImage_layout.
  - intros pairs. apply RawMapProperties.readPath_layout.
Qed.

(** On payloads with three bytes of padding after every four-byte field the
    loops do not read the records that were laid out: a single padded record
    or pair makes the second round of the loop read past the end, and seven
    padded image records (seventy bytes) are read as ten records. *)
Lemma padded_layouts_not_read :
  RawMap.readImage (RawMap.padded_image_layout [(4, 1, 2, 3)%N])
    = RawMap.RangeError /\
  RawMap.readPath (RawMap.padded_path_layout [(5, 6)%N]) = RawMap.RangeError /\
  (exists records,
     RawMap.readImage
       (RawMap.padded_image_layout (replicate 7 (4, 1, 2, 3)%N))
       = RawMap.Finished records
     /\ length records = 10%nat).
Proof.
  split; [vm_compute; reflexivity|]. split; [vm_compute; reflexivity|].
  eexists. split; [vm_compute; reflexivity|reflexivity].
Qed.

Lemma decoders_read_packed_layouts_witness :
  RawMap.readImage (RawMap.image_layout [(4, 1, 2, 3)%N; (1024, 0, 7, 255)%N])
    = RawMap.Finished [(4, 1, 2, 3)%N; (1024, 0, 7, 255)%N] /\
  RawMap.readPath (RawMap.path_layout [(5, 6)%N; (70000, 4294967295)%N])
    = RawMap.Finished [(5, 6)%N; (70000, 4294967295)%N].
Proof.
  split.
  - apply (proj1 (decoders_read_packed_layouts _)).
    split; [reflexivity|].
    repeat constructor.
  - apply (proj2 (decoders_read_packed_layouts _)).
    split; [reflexivity|].
    repeat constructor.
Defined.

(** In doubles the round trip through the two viewport transforms is not the
    identity: after one step of zooming in (scale 1.2), with the viewport at
    (256, 256), the viewport point (100, 100) comes back as
    (100.00000000000004, 100.00000000000004). *)
Lemma viewport_round_trip_rounds :
  RawMapBinary64.pair_eqb
    (RawMapBinary64.transformMapToViewport RawMapBinary64.zoomedIn
       (RawMapBinary64.transformViewportToMap RawMapBinary64.zoomedIn
          (100, 100)%float))
    (100, 100)%float = false /\
  RawMapBinary64.transformMapToViewport RawMapBinary64.zoomedIn
    (RawMapBinary64.transformViewportToMap RawMapBinary64.zoomedIn
       (100, 100)%float)
  = (0x1.9000000000003p+6, 0x1.9000000000003p+6)%float.
Proof. split; vm_compute; reflexivity. Qed.

(** ** Zoom has a floor only in the raw-map renderer *)




(** ** The theorems at work on the example environment *)

Import Example.

Lemma spec_zones_stay_zones :
  VacuumMap.zones_stay_zones (L := Example.specLocations).
Proof.
  intros l p t u Hl Hu. destruct l as [x y a|x1 y1 x2 y2 a]; [discriminate|].
  cbn [loc_tap Example.specLocations] in Hu.
  match type of Hu with
  | context [if ?c then _ else _] => destruct c
  end; cbn [updatedLocation] in Hu; [discriminate|].
  by injection Hu as <-.
Qed.

Lemma spec_goto_points_stay :
  VacuumMap.goto_points_stay (L := Example.specLocations).
Proof.
  intros l p t Hl _. destruct l as [x y a|x1 y1 x2 y2 a]; [|discriminate].
  cbn [loc_tap Example.specLocations].
  match goal with
  | |- context [if ?c then _ else _] => destruct c
  end; eexists; split; reflexivity.
Qed.

Lemma at_most_one_GotoPoint_witness :
  (VacuumMap.countGotoPoints (VacuumMap.locations Example.tapZoneTap) <= 1)%nat.
Proof.
  apply (proj1 (at_most_one_GotoPoint (L := Example.specLocations)
                  spec_zones_stay_zones spec_goto_points_stay)).
  apply (VacuumMap.reach_tap (L := Example.specLocations)
           (VacuumMap.addZone Example.oneTap) (Example.tapAt 300 400)).
  - apply (VacuumMap.reach_addZone (L := Example.specLocations)).
    apply (VacuumMap.reach_tap (L := Example.specLocations)
             Example.fresh (Example.tapAt 100 200)).
    + apply VacuumMap.reach_init. reflexivity.
    + vm_compute. reflexivity.
  - vm_compute. reflexivity.
Defined.

Lemma tap_on_empty_map_witness :
  exists w' x y,
    VacuumMap.tap (L := Example.specLocations) Example.fresh
      (Example.tapAt 100 200) = Some w' /\
    VacuumMap.locations w' = [GotoPoint x y false] /\
    x == 100 /\ y == 200 /\
    VacuumMap.getLocations w'
      = {| VacuumMap.zones := [];
           VacuumMap.gotoPoints := [mkReal 5000 10000] |}.
Proof.
  apply (tap_on_empty_map (L := Example.specLocations) Example.fresh
           (Example.tapAt 100 200)).
  - reflexivity.
  - split; vm_compute; reflexivity.
Defined.


Lemma onmessage_frames_witness :
  VacuumMap.frames
    (VacuumMap.onmessage (B := Example.builtins) Example.fresh "{oops")
    = VacuumMap.frames Example.fresh /\
  VacuumMap.frames
    (VacuumMap.onmessage (B := Example.builtins) Example.fresh
       Example.framePayload)
    = (JNumber 1, (JNumber 2, JNumber 3, JUndefined)).
Proof.
  split.
  - apply (proj1 (proj2 (onmessage_frames (B := Example.builtins)
                           Example.fresh "{oops"))).
    reflexivity.
  - apply (proj2 (proj2 (proj2 (onmessage_frames (B := Example.builtins)
                                  Example.fresh Example.framePayload)))
             Example.frameValue).
    + discriminate.
    + reflexivity.
    + reflexivity.
    + reflexivity.
    + reflexivity.
Defined.

Lemma viewport_map_inverse_witness :
  RawMap.Pair_eq
    (RawMap.transformMapToViewport (RawMap.mkState 2 (10, 20) None)
       (RawMap.transformViewportToMap (RawMap.mkState 2 (10, 20) None) (3, 4)))
    (3, 4).
Proof.
  apply (RawMapProperties.viewport_map_inverse
           (RawMap.mkState 2 (10, 20) None) (3, 4)).
  reflexivity.
Defined.

(** * Further properties of the map widget *)

Section DispatchBounds.
Context {L : LocationsJs} {B : Builtins}.
Import VacuumMap.

Variable handler : Location -> HandlerResult.

Lemma filter_sublist (f : Location -> bool) (ls : list Location) :
  sublist (List.filter f ls) ls.
Proof.
  induction ls as [|l ls IH]; [constructor|].
  simpl. destruct (f l); [by apply sublist_skip|by apply sublist_cons].
Qed.

Lemma filter_Forall (f : Location -> bool) (ls : list Location) :
  Forall (fun l => f l = true) (List.filter f ls).
Proof.
  induction ls as [|l ls IH]; [constructor|].
  simpl. destruct (f l) eqn:Hf; [by constructor|done].
Qed.

Lemma length_settle (l : Location) : (length (settle handler l) <= 1)%nat.
Proof.
  unfold settle. destruct (has_translate l); [|done].
  destruct (updatedLocation (handler l)); simpl; lia.
Qed.

Lemma length_flat_map_settle (ls : list Location) :
  (length (flat_map (settle handler) ls) <= length ls)%nat.
Proof.
  induction ls as [|l ls IH]; [done|].
  simpl. rewrite length_app. pose proof (length_settle l). lia.
Qed.

Lemma length_dispatched (ls : list Location) :
  (length (dispatched handler ls) <= length ls)%nat.
Proof.
  unfold dispatched. set (n := offered handler ls).
  rewrite length_app.
  pose proof (length_flat_map_settle (take n ls)) as Hle.
  rewrite <- (take_drop n ls) at 3. rewrite length_app. lia.
Qed.

(** The loop calls the handlers of a subsequence of the list: each location
    at most once, in list order, and only locations with a [translate]
    function; and it never makes the list longer. *)
Theorem dispatch_calls_subsequence (locations : list Location) :
  exists out consumed calls,
    dispatch handler locations = Some (out, consumed, calls) /\
    sublist calls locations /\
    Forall (fun l => has_translate l = true) calls /\
    (length out <= length locations)%nat.
Proof.
  exists (dispatched handler locations), (was_consumed handler locations),
         (called handler locations).
  split; [apply dispatch_offered|]. split.
  - unfold called. etrans; [apply filter_sublist|apply sublist_take].
  - split; [apply filter_Forall|apply length_dispatched].
Qed.

Lemma walk_no_interactive (locations : list Location) :
  Forall (fun l => has_translate l = false) locations ->
  walk handler locations = (locations, false, []).
Proof.
  induction 1 as [|l ls Hl _ IH]; [done|].
  simpl. by rewrite Hl, IH.
Qed.

End DispatchBounds.

Section MoreWidgetProperties.
Context {L : LocationsJs} {B : Builtins}.
Import VacuumMap.

(** When no location has a [translate] function, a tap calls no handler and
    leaves the locations alone, apart from placing the goto point: on the
    empty list it is added, a lone goto point is replaced, any other list
    stays as it is. A pan-move then always pans the map. *)
Theorem gestures_without_interactive_locations (w : State) :
  Forall (fun l => has_translate l = false) (locations w) ->
  (forall handler, dispatch handler (locations w) = Some (locations w, false, [])) /\
  (forall evt,
     tap w evt
       = Some (set_locations
                 (placeGotoPoint (tappedPoint w evt) (locations w)) w)) /\
  (forall evt start,
     dragStart w = Some start ->
     exists w', moveTranslate w evt = Some w' /\ locations w' = locations w).
Proof.
  intros Hnone.
  assert (forall handler,
            dispatch handler (locations w) = Some (locations w, false, []))
    as Hdispatch.
  { intros handler. rewrite dispatch_walk. by rewrite walk_no_interactive. }
  split; [exact Hdispatch|]. split.
  - intros evt. unfold tap. by rewrite Hdispatch.
  - intros evt start Hstart. unfold moveTranslate.
    rewrite Hstart, Hdispatch. eexists. split; [reflexivity|]. reflexivity.
Qed.



(** *** Panning and zooming *)


End MoreWidgetProperties.

Section ZoomProperties.
Context {L : LocationsJs} {B : Builtins}.
Import VacuumMap.


(** A pinch-move that arrives when neither a pinch nor a pan has started
    throws, after it has scaled the transform and recorded the scale. *)
Theorem pinch_without_start_throws (w : State) (evt : PinchEvent) :
  dragStart w = None ->
  exists w',
    scalePinch w evt = Threw w' /\
    dragStart w' = None /\
    lastScaleFactor w' = scale evt /\
    m_a (ctx w') = m_a (ctx w) * (scale evt / lastScaleFactor w) /\
    m_d (ctx w') = m_d (ctx w) * (scale evt / lastScaleFactor w) /\
    locations w' = locations w /\
    pathDrawer_scale w' = pathDrawer_scale w.
Proof.
  intros Hstart. unfold scalePinch.
  cbn [dragStart set_last set_ctx set_lastScaleFactor].
  rewrite Hstart. eexists. split; [reflexivity|]. cbn. by rewrite Hstart.
Qed.



End ZoomProperties.

Section LocationsForTheApi.
Context {L : LocationsJs} {B : Builtins}.
Import VacuumMap.

(** [getLocations] sorts every location into exactly one of its two lists:
    the zones and the goto points together are as many as the locations, and
    the goto points are as many as the locations of class [GotoPoint]. *)
Theorem getLocations_partition (w : State) :
  (length (zones (getLocations w)) + length (gotoPoints (getLocations w))
   = length (locations w))%nat /\
  length (gotoPoints (getLocations w)) = countGotoPoints (locations w).
Proof.
  unfold getLocations, countGotoPoints. cbn [zones gotoPoints]. unfold omap.
  induction (locations w) as [|l ls [IH1 IH2]]; [done|].
  destruct l; simpl in *; lia.
Qed.

Lemma length_gotoPoints (w : State) :
  length (gotoPoints (getLocations w)) = countGotoPoints (locations w).
Proof.
  unfold getLocations, countGotoPoints. cbn [gotoPoints]. unfold omap.
  induction (locations w) as [|l ls IH]; [done|].
  destruct l; simpl in *; lia.
Qed.

(** In every state reached by taps and [addZone], the point the goto button
    sends is the only goto point there is: [gotoPoints] is that point alone,
    or empty when there is none. *)
Theorem goto_button_sends_the_goto_point (w : State) :
  zones_stay_zones ->
  reachable w ->
  gotoPoints (getLocations w)
    = match Canvas.gotoTarget w with Some p => [p] | None => [] end.
Proof.
  intros Hzone Hreach.
  pose proof (reachable_countGotoPoints w Hzone Hreach) as Hle.
  rewrite <- length_gotoPoints in Hle. unfold Canvas.gotoTarget.
  destruct (gotoPoints (getLocations w)) as [|p [|q ps]]; simpl in *;
    [done|done|lia].
Qed.

(** A zone whose first corner is the upper left one is converted corner by
    corner, since the conversion to millimetres is monotone. *)
Theorem ordered_zone_converted_cornerwise (x1 y1 x2 y2 : Q) :
  x1 <= x2 ->
  y1 <= y2 ->
  prepareZoneCoordinatesForApi x1 y1 x2 y2
    = (rx (convertToRealCoords (mkPoint x1 y1)),
       ry (convertToRealCoords (mkPoint x1 y1)),
       rx (convertToRealCoords (mkPoint x2 y2)),
       ry (convertToRealCoords (mkPoint x2 y2))).
Proof.
  intros Hx Hy. unfold prepareZoneCoordinatesForApi, convertToRealCoords.
  cbn [rx ry px py].
  assert (Qfloor (x1 * 50) <= Qfloor (x2 * 50))%Z
    by (apply Qfloor_resp_le; lra).
  assert (Qfloor (y1 * 50) <= Qfloor (y2 * 50))%Z
    by (apply Qfloor_resp_le; lra).
  by rewrite !Z.min_l, !Z.max_r.
Qed.

Lemma getLocations_deactivate (ls : list Location) (w : State) :
  getLocations (set_locations (map deactivate ls) w)
    = getLocations (set_locations ls w).
Proof.
  unfold getLocations. cbn [locations set_locations]. unfold omap.
  induction ls as [|l ls IH]; [done|].
  injection IH as IHz IHg.
  destruct l; cbn [map list_omap deactivate]; rewrite IHz, IHg; reflexivity.
Qed.

(** [addZone] appends one location, the zone from (480, 480) to (550, 550),
    and deselects the others without moving them: [getLocations] afterwards
    reports the boxes it reported before followed by
    [24000, 24000, 27500, 27500], and the same goto points. *)
Theorem addZone_appends_zone (w : State) :
  locations (addZone w)
    = map deactivate (locations w) ++ [Zone 480 480 550 550 Zone_active] /\
  zones (getLocations (addZone w))
    = zones (getLocations w) ++ [(24000, 24000, 27500, 27500)%Z] /\
  gotoPoints (getLocations (addZone w)) = gotoPoints (getLocations w).
Proof.
  split; [reflexivity|].
  pose proof (getLocations_deactivate (locations w) w) as Hd.
  unfold getLocations in *. cbn [locations set_locations addZone] in *.
  injection Hd as Hz Hg. cbn [zones gotoPoints].
  rewrite !omap_app, Hz, Hg. split; [reflexivity|].
  cbn [omap list_omap new_Zone]. by rewrite app_nil_r.
Qed.

(** *** Live updates over a whole connection *)

Lemma receive_app (w : State) (before after : list string) :
  receive w (before ++ after) = receive (receive w before) after.
Proof. unfold receive. by rewrite fold_left_app. Qed.

(** After any run of messages the frames on display are those of the last
    message that was neither empty nor malformed, and the heartbeat has been
    reset once per message. *)
Theorem receive_shows_last_good_frame (w : State) (before after : list string)
    (data : string) (mapData image path robot : JSValue) :
  data <> EmptyString ->
  JSON_parse data = Some mapData ->
  getProperty mapData "image" = Some image ->
  getProperty mapData "path" = Some path ->
  getProperty mapData "robot" = Some robot ->
  Forall dropped after ->
  frames (receive w (before ++ [data] ++ after))
    = (image, (path, robot, JUndefined)) /\
  heartbeats (receive w (before ++ [data] ++ after))
    = (heartbeats w + length (before ++ [data] ++ after))%nat.
Proof.
  intros Hdata Hparse Himage Hpath Hrobot Hafter. split.
  - rewrite !receive_app, receive_dropped by done.
    cbn [receive fold_left]. unfold onmessage.
    apply String.eqb_neq in Hdata. rewrite Hdata, Hparse.
    unfold updateMap. by rewrite Himage, Hpath, Hrobot.
  - generalize (before ++ [data] ++ after). intros messages. revert w.
    induction messages as [|m ms IH]; intros w; [simpl; lia|].
    change (receive w (m :: ms)) with (receive (onmessage w m) ms).
    rewrite IH. simpl.
    assert (heartbeats (onmessage w m) = S (heartbeats w)) as ->; [|lia].
    unfold onmessage. destruct (String.eqb m EmptyString); [done|].
    destruct (JSON_parse m) as [v|]; [|done]. unfold updateMap.
    destruct (getProperty v "image"); [|done].
    destruct (getProperty v "path"); [|done].
    destruct (getProperty v "robot"); done.
Qed.

(** A payload that parses to [null] makes [updateMap] throw on its first
    property access; the exception is caught and the message is dropped like
    a malformed one. *)
Theorem null_payload_is_dropped (w : State) (data : string) :
  JSON_parse data = Some JNull ->
  onmessage w data = resetHeartbeat w /\ frames (onmessage w data) = frames w.
Proof.
  intros Hparse. unfold onmessage. rewrite Hparse.
  destruct (String.eqb data EmptyString); done.
Qed.

End LocationsForTheApi.

(** * The canvas: set-up and redrawing *)

Module CanvasProperties.
Import Canvas.




End CanvasProperties.

(** * The pointer handling of the raw-map renderer *)

Module RawMapPointerProperties.
Import RawMap RawMapPointer.

Lemma Qlt_bool_true (x y : Q) : Qlt_bool x y = true <-> x < y.
Proof.
  unfold Qlt_bool. rewrite negb_true_iff. split.
  - intros Hle. apply Qnot_le_lt. intros Hyx.
    apply Qle_bool_iff in Hyx. congruence.
  - intros Hlt. destruct (Qle_bool y x) eqn:Hle; [|done].
    apply Qle_bool_iff in Hle. lra.
Qed.

Lemma Qlt_bool_false (x y : Q) : Qlt_bool x y = false <-> y <= x.
Proof.
  unfold Qlt_bool. rewrite negb_false_iff. apply Qle_bool_iff.
Qed.

Lemma lower_bound_le (size scale : Q) :
  0 <= size -> 0 < scale -> -1 * size / scale + 10 <= 10.
Proof.
  intros Hsize Hscale.
  assert (-1 * size / scale <= 0); [|lra].
  apply Qle_shift_div_r; [exact Hscale|]. lra.
Qed.

Lemma clampPosition_inRange (size scale position : Q) :
  0 <= size -> 0 < scale ->
  inRange size scale (clampPosition size scale position).
Proof.
  intros Hsize Hscale. pose proof (lower_bound_le size scale Hsize Hscale).
  unfold inRange, clampPosition.
  destruct (Qlt_bool (1024 - 10) position) eqn:Hup.
  - destruct (Qlt_bool (1024 - 10) (-1 * size / scale + 10)) eqn:Hlow.
    + apply Qlt_bool_true in Hlow. lra.
    + apply Qlt_bool_false in Hlow. lra.
  - apply Qlt_bool_false in Hup.
    destruct (Qlt_bool position (-1 * size / scale + 10)) eqn:Hlow.
    + lra.
    + apply Qlt_bool_false in Hlow. lra.
Qed.

Lemma clampPosition_id (size scale position : Q) :
  inRange size scale position -> clampPosition size scale position = position.
Proof.
  intros [Hlow Hup]. unfold clampPosition.
  replace (Qlt_bool (1024 - 10) position) with false
    by (symmetry; by apply Qlt_bool_false).
  replace (Qlt_bool position (-1 * size / scale + 10)) with false
    by (symmetry; by apply Qlt_bool_false).
  reflexivity.
Qed.

(** While the pointer is down, every pointer-move leaves the viewport
    position between [-size / scale + 10] and [1014] on both axes, whatever
    the distance moved; the scale and the selection are not touched. *)
Theorem pointermove_keeps_map_in_view (w : Widget) (rect : Pair)
    (e : PointerEvent) (s : Pair) :
  start w = Some s ->
  0 < scale (map w) ->
  0 <= viewportWidth w ->
  0 <= viewportHeight w ->
  let w' := pointermove w rect e in
  inRange (viewportWidth w) (scale (map w)) (fst (viewportPosition (map w'))) /\
  inRange (viewportHeight w) (scale (map w)) (snd (viewportPosition (map w'))) /\
  scale (map w') = scale (map w) /\
  selectedPoint (map w') = selectedPoint (map w) /\
  start w' = Some (localPosition rect e) /\
  moved w' = true.
Proof.
  intros Hstart Hscale Hwidth Hheight. cbn zeta.
  unfold pointermove. rewrite Hstart. unfold localPosition.
  cbn [map viewportPosition scale selectedPoint start moved fst snd].
  split; [by apply clampPosition_inRange|].
  split; [by apply clampPosition_inRange|]. done.
Qed.

(** At a positive scale, as long as the clamps do not cut in, a pointer-move
    shifts the viewport position on each axis by the distance from the pointer
    to the last pointer position, divided by the scale; a pointer-move at the
    position of the last one leaves the view where it is. *)
Theorem pointermove_shifts_view (w : Widget) (rect : Pair)
    (e : PointerEvent) (s : Pair) :
  start w = Some s ->
  0 < scale (map w) ->
  let m := map w in
  let p := localPosition rect e in
  inRange (viewportWidth w) (scale m)
    (fst (viewportPosition m) + (fst s - fst p) / scale m) ->
  inRange (viewportHeight w) (scale m)
    (snd (viewportPosition m) + (snd s - snd p) / scale m) ->
  viewportPosition (map (pointermove w rect e))
    = (fst (viewportPosition m) + (fst s - fst p) / scale m,
       snd (viewportPosition m) + (snd s - snd p) / scale m) /\
  (Pair_eq s p ->
   Pair_eq (viewportPosition (map (pointermove w rect e)))
           (viewportPosition m)).
Proof.
  intros Hstart _. cbn zeta. intros Hx Hy.
  unfold pointermove. rewrite Hstart. unfold localPosition in *.
  cbn [fst snd] in Hx, Hy.
  cbn [map viewportPosition scale fst snd].
  rewrite (clampPosition_id _ _ _ Hx), (clampPosition_id _ _ _ Hy).
  split; [reflexivity|].
  intros [Hsx Hsy]. cbn [fst snd] in Hsx, Hsy.
  unfold Pair_eq. cbn [fst snd]. rewrite Hsx, Hsy.
  split; unfold Qdiv; ring.
Qed.

Lemma pointermoves_state (rect : Pair) (moves : list PointerEvent) :
  forall w,
    is_Some (start w) ->
    moves <> [] ->
    let w' := fold_left (fun w e => pointermove w rect e) moves w in
    is_Some (start w') /\ moved w' = true /\
    selectedPoint (map w') = selectedPoint (map w).
Proof.
  induction moves as [|e moves IH]; intros w [s Hs] Hne; [done|].
  cbn [fold_left]. cbn zeta.
  assert (is_Some (start (pointermove w rect e))
          /\ moved (pointermove w rect e) = true
          /\ selectedPoint (map (pointermove w rect e)) = selectedPoint (map w))
    as [Hs' [Hm' Hp']].
  { unfold pointermove. rewrite Hs. destruct (localPosition rect e).
    cbn. split; [by eexists|done]. }
  destruct moves as [|e' moves]; [done|].
  destruct (IH (pointermove w rect e) Hs' ltac:(done)) as [H1 [H2 H3]].
  cbn zeta in H1, H2, H3. by rewrite H3.
Qed.

(** A press and release without a move in between selects the point of the
    map that [transformViewportToMap] gives for the position of the press,
    and the marker of the selection is drawn at the image of that point under
    [transformMapToViewport]; a press, one or more moves and a release leave
    the selection as it was. Either way the release ends the gesture. *)
Theorem click_selects_drag_does_not (w : Widget) (rect : Pair)
    (down : PointerEvent) (moves : list PointerEvent) :
  start (drag w rect down moves) = None /\
  (moves = [] ->
   selectedPoint (map (drag w rect down moves))
     = Some (transformViewportToMap (map w) (localPosition rect down)) /\
   selectedMarker (map (drag w rect down moves))
     = Some (transformMapToViewport (map w)
               (transformViewportToMap (map w) (localPosition rect down)))) /\
  (moves <> [] ->
   selectedPoint (map (drag w rect down moves)) = selectedPoint (map w)).
Proof.
  split; [reflexivity|]. split.
  - intros ->. split; reflexivity.
  - intros Hne. unfold drag.
    destruct (pointermoves_state rect moves (pointerdown w rect down))
      as [[s Hs] [Hm Hp]]; [by eexists|done|].
    cbn zeta in Hs, Hm, Hp.
    unfold pointerup at 1. cbn [map selectedPoint]. by rewrite Hs, Hm, Hp.
Qed.

(** Zooming out at the floor does nothing: when the scale is 1 and the wheel
    does not turn forwards, the scale stays 1 and the viewport position and
    the selection are the ones before. *)
Theorem mousewheel_at_floor_keeps_view (m : State) (rect : Pair)
    (e : MouseWheelEvent) :
  scale m == 1 ->
  ~ 0 < wheelDelta e ->
  scale (mousewheel m rect e) = 1 /\
  Pair_eq (viewportPosition (mousewheel m rect e)) (viewportPosition m) /\
  selectedPoint (mousewheel m rect e) = selectedPoint m.
Proof.
  intros Hscale Hwheel. unfold mousewheel.
  replace (Qlt_bool 0 (wheelDelta e)) with false
    by (symmetry; apply Qlt_bool_false; by apply Qnot_lt_le).
  replace (Qlt_bool (scale m - (2 # 10) * scale m) 1) with true
    by (symmetry; apply Qlt_bool_true; rewrite Hscale; reflexivity).
  cbn [scale viewportPosition selectedPoint fst snd].
  split; [reflexivity|]. split; [|reflexivity].
  unfold Pair_eq. cbn [fst snd]. rewrite Hscale. split; unfold Qdiv; ring.
Qed.

(** The constructor opens the view with the centre of the map, (512, 512), in
    the centre of the viewport, at scale 1. *)
Theorem construct_centres_map (width height : Q) :
  Pair_eq (transformMapToViewport (map (construct width height)) (512, 512))
          (width / 2, height / 2) /\
  scale (map (construct width height)) = 1 /\
  start (construct width height) = None.
Proof.
  unfold Pair_eq, transformMapToViewport, construct.
  cbn [map viewportPosition scale start fst snd].
  split; [split; field|done].
Qed.

(** [updateViewport] draws the map image with its upper left corner where
    [transformMapToViewport] puts the origin of the map, and with a width and
    height of 1024 times the scale. *)
Theorem image_drawn_at_map_origin (m : State) :
  let '(x, y, width, height) := drawImageArgs m in
  Pair_eq (x, y) (transformMapToViewport m (0, 0)) /\
  width = 1024 * scale m /\ height = 1024 * scale m.
Proof.
  unfold drawImageArgs, Pair_eq, transformMapToViewport. cbn [fst snd].
  repeat split; try reflexivity; ring.
Qed.

End RawMapPointerProperties.

(** * How the decoding loops end *)

Module DecoderOutcomes.
Import RawMap RawMapProperties.

Lemma bytes_are_image_layout (n : nat) :
  forall data : list byte,
    length data = (7 * n)%nat ->
    exists records,
      data = image_layout records /\ Forall image_record_ok records.
Proof.
  induction n as [|n IH]; intros data Hlen.
  - destruct data; [|done]. by exists [].
  - destruct data as [|b0 [|b1 [|b2 [|b3 [|br [|bg [|bb rest]]]]]]];
      simpl in Hlen; try lia.
    destruct (IH rest ltac:(lia)) as [records [-> Hok]].
    destruct (be32_bytes b0 b1 b2 b3) as [Hbytes Hrange]. cbn zeta in *.
    eexists ((_, Byte.to_N br, Byte.to_N bg, Byte.to_N bb) :: records).
    split.
    + unfold image_layout. cbn [flat_map]. rewrite Hbytes.
      by rewrite !byte_of_N_to_N.
    + constructor; [|done]. split; [exact Hrange|].
      unfold uint8.
      pose proof (Byte.to_N_bounded br). pose proof (Byte.to_N_bounded bg).
      pose proof (Byte.to_N_bounded bb). lia.
Qed.

Lemma bytes_are_path_layout (n : nat) :
  forall data : list byte,
    length data = (8 * n)%nat ->
    exists pairs, data = path_layout pairs /\ Forall path_pair_ok pairs.
Proof.
  induction n as [|n IH]; intros data Hlen.
  - destruct data; [|done]. by exists [].
  - destruct data as [|b0 [|b1 [|b2 [|b3 [|c0 [|c1 [|c2 [|c3 rest]]]]]]]];
      simpl in Hlen; try lia.
    destruct (IH rest ltac:(lia)) as [pairs [-> Hok]].
    destruct (be32_bytes b0 b1 b2 b3) as [Hbx Hrx].
    destruct (be32_bytes c0 c1 c2 c3) as [Hby Hry]. cbn zeta in *.
    eexists ((_, _) :: pairs). split.
    + unfold path_layout. cbn [flat_map]. by rewrite Hbx, Hby.
    + constructor; [|done]. split; [exact Hrx|exact Hry].
Qed.

Lemma readImageLoop_ends (fuel : nat) :
  forall (pre rest : list byte) (acc : list ImageRecord),
    (length rest < fuel)%nat ->
    readImageLoop fuel (pre ++ rest) (length pre) acc <> OutOfFuel.
Proof.
  induction fuel as [|fuel IH]; intros pre rest acc Hfuel; [lia|].
  cbn [readImageLoop].
  destruct (length pre <? length (pre ++ rest))%nat; [|done].
  destruct (getUint32 (pre ++ rest) (length pre)) as [pos|]; [|done].
  destruct (getUint8 (pre ++ rest) (length pre + 4)) as [r|]; [|done].
  destruct (getUint8 (pre ++ rest) (length pre + 5)) as [g|]; [|done].
  destruct (getUint8 (pre ++ rest) (length pre + 6)) as [b|] eqn:Hb; [|done].
  unfold getUint8 in Hb. rewrite lookup_after in Hb.
  destruct rest as [|b0 [|b1 [|b2 [|b3 [|br [|bg [|bb rest]]]]]]]; try done.
  specialize (IH (pre ++ [b0; b1; b2; b3; br; bg; bb]) rest).
  rewrite length_app, <- app_assoc in IH. cbn [app length] in IH.
  apply IH. simpl in Hfuel. lia.
Qed.

Lemma readPathLoop_ends (fuel : nat) :
  forall (pre rest : list byte) (acc : list (N * N)),
    (length rest < fuel)%nat ->
    readPathLoop fuel (pre ++ rest) (length pre) acc <> OutOfFuel.
Proof.
  induction fuel as [|fuel IH]; intros pre rest acc Hfuel; [lia|].
  cbn [readPathLoop].
  destruct (length pre <? length (pre ++ rest))%nat; [|done].
  destruct (getUint32 (pre ++ rest) (length pre)) as [x|]; [|done].
  destruct (getUint32 (pre ++ rest) (length pre + 4)) as [y|] eqn:Hy; [|done].
  unfold getUint32 in Hy.
  rewrite <- !Nat.add_assoc in Hy. rewrite !lookup_after in Hy.
  destruct rest as [|b0 [|b1 [|b2 [|b3 [|c0 [|c1 [|c2 [|c3 rest]]]]]]]];
    try done.
  specialize (IH (pre ++ [b0; b1; b2; b3; c0; c1; c2; c3]) rest).
  rewrite length_app, <- app_assoc in IH. cbn [app length] in IH.
  apply IH. simpl in Hfuel. lia.
Qed.

(** The image loop of [updateMapData] always ends. On a payload whose length
    is a multiple of seven it reads one record per seven bytes; on any other
    payload it throws a [RangeError]. *)
Theorem readImage_outcome (data : list byte) :
  ((length data) `mod` 7 = 0%nat ->
   exists records,
     readImage data = Finished records
     /\ length data = (7 * length records)%nat) /\
  ((length data) `mod` 7 <> 0%nat -> readImage data = RangeError).
Proof.
  split.
  - intros Hmod.
    destruct (bytes_are_image_layout (length data `div` 7) data)
      as [records [Hdata Hok]].
    { pose proof (Nat.div_mod_eq (length data) 7). lia. }
    exists records. split.
    + by apply readImage_layout.
    + by rewrite Hdata at 1; rewrite length_image_layout.
  - intros Hmod. destruct (readImage data) as [records| |] eqn:Hrun.
    + apply readImage_layout in Hrun as [-> _].
      rewrite length_image_layout in Hmod.
      rewrite Nat.mul_comm, Nat.Div0.mod_mul in Hmod. done.
    + reflexivity.
    + unfold readImage in Hrun.
      by destruct (readImageLoop_ends (S (length data)) [] data []
                     ltac:(lia)).
Qed.

(** The path loop of [drawPath] always ends. On a payload whose length is a
    multiple of eight it reads one pair per eight bytes; on any other payload
    it throws a [RangeError]. *)
Theorem readPath_outcome (data : list byte) :
  ((length data) `mod` 8 = 0%nat ->
   exists pairs,
     readPath data = Finished pairs
     /\ length data = (8 * length pairs)%nat) /\
  ((length data) `mod` 8 <> 0%nat -> readPath data = RangeError).
Proof.
  split.
  - intros Hmod.
    destruct (bytes_are_path_layout (length data `div` 8) data)
      as [pairs [Hdata Hok]].
    { pose proof (Nat.div_mod_eq (length data) 8). lia. }
    exists pairs. split.
    + by apply readPath_layout.
    + by rewrite Hdata at 1; rewrite length_path_layout.
  - intros Hmod. destruct (readPath data) as [pairs| |] eqn:Hrun.
    + apply readPath_layout in Hrun as [-> _].
      rewrite length_path_layout in Hmod.
      rewrite Nat.mul_comm, Nat.Div0.mod_mul in Hmod. done.
    + reflexivity.
    + unfold readPath in Hrun.
      by destruct (readPathLoop_ends (S (length data)) [] data []
                     ltac:(lia)).
Qed.

End DecoderOutcomes.

(** * The further properties at work on the examples *)

Lemma gestures_without_interactive_locations_witness :
  VacuumMap.tap (L := ExampleMore.zonesOnly) ExampleMore.lonePoint
    (Example.tapAt 7 9)
  = Some (VacuumMap.set_locations
            (VacuumMap.placeGotoPoint (L := ExampleMore.zonesOnly)
               (VacuumMap.tappedPoint ExampleMore.lonePoint (Example.tapAt 7 9))
               [GotoPoint 100 200 false])
            ExampleMore.lonePoint).
Proof.
  apply (proj1 (proj2 (gestures_without_interactive_locations
                         (L := ExampleMore.zonesOnly) ExampleMore.lonePoint
                         ltac:(repeat constructor)))).
Defined.



Lemma pinch_without_start_throws_witness :
  exists w',
    VacuumMap.scalePinch Example.fresh (Example.pinchAt 120 90 (3 # 2))
      = VacuumMap.Threw w' /\
    VacuumMap.lastScaleFactor w' = 3 # 2.
Proof.
  destruct (pinch_without_start_throws Example.fresh
              (Example.pinchAt 120 90 (3 # 2)) eq_refl)
    as [w' [Hpinch [_ [Hlast _]]]].
  exists w'. split; [exact Hpinch|exact Hlast].
Defined.


Lemma goto_button_sends_the_goto_point_witness :
  VacuumMap.gotoPoints (VacuumMap.getLocations Example.tapZoneTap)
  = match Canvas.gotoTarget Example.tapZoneTap with
    | Some p => [p]
    | None => []
    end.
Proof.
  apply (goto_button_sends_the_goto_point (L := Example.specLocations)
           Example.tapZoneTap spec_zones_stay_zones).
  apply (VacuumMap.reach_tap (L := Example.specLocations)
           (VacuumMap.addZone Example.oneTap) (Example.tapAt 300 400)).
  - apply (VacuumMap.reach_addZone (L := Example.specLocations)).
    apply (VacuumMap.reach_tap (L := Example.specLocations)
             Example.fresh (Example.tapAt 100 200)).
    + apply VacuumMap.reach_init. reflexivity.
    + vm_compute. reflexivity.
  - vm_compute. reflexivity.
Defined.

Lemma ordered_zone_converted_cornerwise_witness :
  VacuumMap.prepareZoneCoordinatesForApi 480 (9 # 2) 550 (1001 # 100)
  = (24000, 225, 27500, 500)%Z.
Proof.
  rewrite (ordered_zone_converted_cornerwise 480 (9 # 2) 550 (1001 # 100)).
  - reflexivity.
  - discriminate.
  - discriminate.
Defined.

Lemma receive_shows_last_good_frame_witness :
  VacuumMap.frames
    (VacuumMap.receive (B := Example.builtins) Example.fresh
       (["{oops"%string] ++ [Example.framePayload]
          ++ [EmptyString; "{bad"%string]))
  = (JNumber 1, (JNumber 2, JNumber 3, JUndefined)).
Proof.
  apply (proj1 (receive_shows_last_good_frame (B := Example.builtins)
                  Example.fresh ["{oops"%string]
                  [EmptyString; "{bad"%string] Example.framePayload
                  Example.frameValue (JNumber 1) (JNumber 2) (JNumber 3)
                  ltac:(discriminate) eq_refl eq_refl eq_refl eq_refl
                  ltac:(constructor;
                          [left; reflexivity
                          |constructor; [right; reflexivity|constructor]]))).
Defined.

Lemma null_payload_is_dropped_witness :
  VacuumMap.frames
    (VacuumMap.onmessage (B := Example.builtins) Example.oneTap "null")
  = VacuumMap.frames Example.oneTap.
Proof.
  apply (proj2 (null_payload_is_dropped (B := Example.builtins)
                  Example.oneTap "null" eq_refl)).
Defined.



Lemma pointermove_keeps_map_in_view_witness :
  RawMapPointer.inRange 400 (6 # 5)
    (fst (RawMap.viewportPosition
            (RawMapPointer.map
               (RawMapPointer.pointermove
                  (RawMapPointer.pointerdown ExampleMore.rawWidget (0, 0)
                     (ExampleMore.pointerAt 10 10))
                  (0, 0) (ExampleMore.pointerAt (-5000) 20))))).
Proof.
  apply (proj1 (RawMapPointerProperties.pointermove_keeps_map_in_view
                  (RawMapPointer.pointerdown ExampleMore.rawWidget (0, 0)
                     (ExampleMore.pointerAt 10 10))
                  (0, 0) (ExampleMore.pointerAt (-5000) 20)
                  (10 - 0, 10 - 0) eq_refl eq_refl
                  ltac:(discriminate) ltac:(discriminate))).
Defined.

Lemma pointermove_shifts_view_witness :
  RawMap.viewportPosition
    (RawMapPointer.map
       (RawMapPointer.pointermove
          (RawMapPointer.pointerdown ExampleMore.rawWidget (0, 0)
             (ExampleMore.pointerAt 10 10))
          (0, 0) (ExampleMore.pointerAt 40 70)))
  = (312 + ((10 - 0) - (40 - 0)) / (6 # 5),
     362 + ((10 - 0) - (70 - 0)) / (6 # 5)).
Proof.
  apply (proj1 (RawMapPointerProperties.pointermove_shifts_view
                  (RawMapPointer.pointerdown ExampleMore.rawWidget (0, 0)
                     (ExampleMore.pointerAt 10 10))
                  (0, 0) (ExampleMore.pointerAt 40 70) (10 - 0, 10 - 0)
                  eq_refl eq_refl
                  ltac:(split; vm_compute; discriminate)
                  ltac:(split; vm_compute; discriminate))).
Defined.

Lemma click_selects_drag_does_not_witness :
  RawMap.selectedPoint
    (RawMapPointer.map
       (RawMapPointer.drag ExampleMore.rawWidget (0, 0)
          (ExampleMore.pointerAt 10 10) []))
  = Some (RawMap.transformViewportToMap
            (RawMapPointer.map ExampleMore.rawWidget)
            (RawMapPointer.localPosition (0, 0) (ExampleMore.pointerAt 10 10)))
  /\
  RawMap.selectedPoint
    (RawMapPointer.map
       (RawMapPointer.drag ExampleMore.rawWidget (0, 0)
          (ExampleMore.pointerAt 10 10) [ExampleMore.pointerAt 11 10]))
  = None.
Proof.
  split.
  - apply (proj1 (proj1 (proj2 (RawMapPointerProperties.click_selects_drag_does_not
                                  ExampleMore.rawWidget (0, 0)
                                  (ExampleMore.pointerAt 10 10) []))
                    eq_refl)).
  - apply (proj2 (proj2 (RawMapPointerProperties.click_selects_drag_does_not
                           ExampleMore.rawWidget (0, 0)
                           (ExampleMore.pointerAt 10 10)
                           [ExampleMore.pointerAt 11 10]))).
    discriminate.
Defined.

Lemma readImage_outcome_witness :
  (exists records,
     RawMap.readImage (RawMap.image_layout [(4, 1, 2, 3)%N; (8, 0, 0, 0)%N])
       = RawMap.Finished records) /\
  RawMap.readImage (RawMap.padded_image_layout [(4, 1, 2, 3)%N])
    = RawMap.RangeError.
Proof.
  split.
  - destruct (proj1 (DecoderOutcomes.readImage_outcome
                       (RawMap.image_layout [(4, 1, 2, 3)%N; (8, 0, 0, 0)%N]))
                eq_refl) as [records [Hrun _]].
    exists records. exact Hrun.
  - apply (proj2 (DecoderOutcomes.readImage_outcome
                    (RawMap.padded_image_layout [(4, 1, 2, 3)%N]))).
    discriminate.
Defined.

Lemma readPath_outcome_witness :
  (exists pairs,
     RawMap.readPath (RawMap.path_layout [(5, 6)%N; (700, 800)%N])
       = RawMap.Finished pairs) /\
  RawMap.readPath (RawMap.padded_path_layout [(5, 6)%N]) = RawMap.RangeError.
Proof.
  split.
  - destruct (proj1 (DecoderOutcomes.readPath_outcome
                       (RawMap.path_layout [(5, 6)%N; (700, 800)%N]))
                eq_refl) as [pairs [Hrun _]].
    exists pairs. exact Hrun.
  - apply (proj2 (DecoderOutcomes.readPath_outcome
                    (RawMap.padded_path_layout [(5, 6)%N]))).
    discriminate.
Defined.

Lemma mousewheel_at_floor_keeps_view_witness :
  RawMap.scale
    (RawMap.mousewheel (RawMap.mkState 1 (312, 362) None) (0, 0)
       {| RawMap.clientX := 70; RawMap.clientY := 90;
          RawMap.wheelDelta := -120 |}) = 1.
Proof.
  apply (proj1 (RawMapPointerProperties.mousewheel_at_floor_keeps_view
                  (RawMap.mkState 1 (312, 362) None) (0, 0)
                  {| RawMap.clientX := 70; RawMap.clientY := 90;
                     RawMap.wheelDelta := -120 |}
                  ltac:(reflexivity) ltac:(discriminate))).
Defined.
